(** * Runtime-extension registry and ExtensionConfig reconciler

    A shallow embedding of the Go packages [registry]
    (internal/runtime/registry) and [controllers]
    (exp/runtime/internal/controllers) of cluster-api.

    Conventions of the embedding:
    - a Go method with a pointer receiver becomes a function from the
      receiver's state to the new state and the returned values;
    - a nil-able pointer argument becomes an [option];
    - a Go [map[string]*T] becomes a [gmap string T]; the registrations are
      never mutated after they are stored, so they are kept by value;
    - the [sync.RWMutex] is not modelled: every method body is one critical
      section, which is what the sequential functions below describe. *)

From stdpp Require Import gmap strings list fin_maps.

#[local] Set Warnings "-register-all,-clear-no-such-hyp".

(** ** Errors ([github.com/pkg/errors], [k8s.io/apimachinery/pkg/util/errors]) *)

(** The error values the code builds: [errors.New] / [errors.Errorf] (the
    message already formatted), [errors.Wrap] / [errors.Wrapf], and
    [kerrors.NewAggregate]. Errors of external collaborators are values of
    the same type. *)
Inductive error : Type :=
| errors_New (msg : string)
| errors_Wrap (cause : error) (msg : string)
| NewAggregate (errs : list error).

(** Go's [%q] verb on a string without characters that need escaping. *)
Definition dquote : string := String (Ascii.ascii_of_nat 34) EmptyString.
Definition quote (s : string) : string := dquote +:+ s +:+ dquote.

Fixpoint join (sep : string) (l : list string) : string :=
  match l with
  | [] => EmptyString
  | [s] => s
  | s :: rest => s +:+ sep +:+ join sep rest
  end.

(** First occurrences only, in order: the [seenerrs] set of
    [aggregate.Error]. *)
Fixpoint dedup (seen : list string) (l : list string) : list string :=
  match l with
  | [] => []
  | s :: rest =>
      if bool_decide (s ∈ seen) then dedup seen rest
      else s :: dedup (s :: seen) rest
  end.

Definition aggregate_Error (msgs : list string) : string :=
  match dedup [] msgs with
  | [] => EmptyString
  | [m] => m
  | ms => "[" +:+ join ", " ms +:+ "]"
  end.

(** The messages of the leaves of an error, nested aggregates flattened
    ([aggregate.visit]). *)
Fixpoint visit (e : error) : list string :=
  match e with
  | errors_New msg => [msg]
  | errors_Wrap cause msg => [msg +:+ ": " +:+ aggregate_Error (visit cause)]
  | NewAggregate errs => flat_map visit errs
  end.

(** The [Error()] method. *)
Definition Error (e : error) : string := aggregate_Error (visit e).

(** Go's [(value, error)] pair of a fallible call. *)
Inductive result (A : Type) : Type :=
| Ok (a : A)
| Err (e : error).
Arguments Ok {A} a.
Arguments Err {A} e.

Definition result_option {A} (x : result A) : option A :=
  match x with Ok a => Some a | Err _ => None end.
Definition result_error {A} (x : result A) : option error :=
  match x with Ok _ => None | Err e => Some e end.

(** The two families of messages of the registry. *)
Definition is_invalid_argument (e : error) : bool :=
  match e with
  | errors_New msg => String.prefix "invalid argument: " msg
  | _ => false
  end.

Definition is_invalid_operation (e : error) : bool :=
  match e with
  | errors_New msg => String.prefix "invalid operation: " msg
  | _ => false
  end.

Definition is_aggregate (e : error) : bool :=
  match e with
  | NewAggregate (_ :: _) => true
  | _ => false
  end.

(** ** API types ([runtimev1], [runtimecatalog], [schema], [metav1]) *)

Record GroupVersion : Type := mkGroupVersion {
  gv_Group : string;
  gv_Version : string
}.

Record GroupVersionHook : Type := mkGroupVersionHook {
  gvh_Group : string;
  gvh_Version : string;
  gvh_Hook : string
}.

Record GroupHook : Type := mkGroupHook {
  gh_Group : string;
  gh_Hook : string
}.

Record ServiceReference : Type := mkServiceReference {
  svc_Namespace : string;
  svc_Name : string;
  svc_Path : option string;
  svc_Port : option Z
}.

Record ClientConfig : Type := mkClientConfig {
  cc_URL : option string;
  cc_Service : option ServiceReference;
  cc_CABundle : list Byte.byte
}.

Record GroupVersionHookRef : Type := mkRequestHook {
  rh_APIVersion : string;
  rh_Hook : string
}.

Record ExtensionHandler : Type := mkExtensionHandler {
  eh_Name : string;
  eh_RequestHook : GroupVersionHookRef;
  eh_TimeoutSeconds : option Z;
  eh_FailurePolicy : option string
}.

(** [metav1.Condition], without its clock and generation fields. *)
Record Condition : Type := mkCondition {
  cond_Type : string;
  cond_Status : string;
  cond_Reason : string;
  cond_Message : string
}.

(** The deprecated v1beta1 condition, without its clock field. *)
Record V1Beta1Condition : Type := mkV1Beta1Condition {
  v1c_Type : string;
  v1c_Status : string;
  v1c_Severity : string;
  v1c_Reason : string;
  v1c_Message : string
}.

Record ExtensionConfigSpec : Type := mkExtensionConfigSpec {
  spec_ClientConfig : ClientConfig
}.

Record ExtensionConfigStatus : Type := mkExtensionConfigStatus {
  status_Handlers : list ExtensionHandler;
  status_Conditions : list Condition;
  status_V1Beta1Conditions : list V1Beta1Condition
}.

(** [ObjectMeta] is flattened into the object. [DeletionTimestamp] counts
    from Go's zero time, so that [IsZero] is nil-or-zero. *)
Record ExtensionConfig : Type := mkExtensionConfig {
  Name : string;
  Namespace : string;
  Annotations : gmap string string;
  DeletionTimestamp : option Z;
  Spec : ExtensionConfigSpec;
  Status : ExtensionConfigStatus
}.

Record ExtensionConfigList : Type := mkExtensionConfigList {
  Items : list ExtensionConfig
}.

(** ** The registry (package [registry]) *)

Record ExtensionRegistration : Type := mkExtensionRegistration {
  reg_Name : string;
  reg_ExtensionConfigName : string;
  reg_GroupVersionHook : GroupVersionHook;
  reg_ClientConfig : ClientConfig;
  reg_TimeoutSeconds : option Z;
  reg_FailurePolicy : option string
}.

Record extensionRegistry : Type := mkExtensionRegistry {
  ready : bool;
  items : gmap string ExtensionRegistration
}.

Definition New : extensionRegistry :=
  {| ready := false; items := ∅ |}.

Definition IsReady (r : extensionRegistry) : bool := ready r.

(** One turn of the [range r.items] loop of [remove], reaching key [k]. An
    entry deleted before it is reached is not produced; a produced entry [e]
    whose owner matches deletes the key [e.Name]. *)
Definition remove_visit (owner : string)
    (m : gmap string ExtensionRegistration) (k : string)
    : gmap string ExtensionRegistration :=
  match m !! k with
  | Some e =>
      if decide (reg_ExtensionConfigName e = owner)
      then delete (reg_Name e) m
      else m
  | None => m
  end.

(** The loop of [remove] along a given iteration order of the keys. *)
Definition remove_range (owner : string) (order : list string)
    (m : gmap string ExtensionRegistration)
    : gmap string ExtensionRegistration :=
  foldl (remove_visit owner) m order.

Definition remove (r : extensionRegistry) (extensionConfig : ExtensionConfig)
    : extensionRegistry :=
  {| ready := ready r;
     items := remove_range (Name extensionConfig)
                (map_to_list (items r)).*1 (items r) |}.

Section Registry.

(** [schema.ParseGroupVersion] belongs to the apimachinery library: the
    registry is verified for every parser. *)
Variable ParseGroupVersion : string → result GroupVersion.

(** One turn of the loop over [extensionConfig.Status.Handlers] in [add]:
    the accumulators are [registrations] and [allErrs]. *)
Definition add_handler (extensionConfig : ExtensionConfig)
    (acc : list ExtensionRegistration * list error) (e : ExtensionHandler)
    : list ExtensionRegistration * list error :=
  let '(registrations, allErrs) := acc in
  match ParseGroupVersion (rh_APIVersion (eh_RequestHook e)) with
  | Err err =>
      (registrations,
       allErrs ++ [errors_Wrap err
         ("failed to parse GroupVersion " +:+
          quote (rh_APIVersion (eh_RequestHook e)))])
  | Ok gv =>
      (registrations ++
         [{| reg_ExtensionConfigName := Name extensionConfig;
             reg_Name := eh_Name e;
             reg_GroupVersionHook :=
               {| gvh_Group := gv_Group gv;
                  gvh_Version := gv_Version gv;
                  gvh_Hook := rh_Hook (eh_RequestHook e) |};
             reg_ClientConfig := spec_ClientConfig (Spec extensionConfig);
             reg_TimeoutSeconds := eh_TimeoutSeconds e;
             reg_FailurePolicy := eh_FailurePolicy e |}],
       allErrs)
  end.

Definition store (m : gmap string ExtensionRegistration)
    (registration : ExtensionRegistration)
    : gmap string ExtensionRegistration :=
  <[reg_Name registration := registration]> m.

Definition add (r : extensionRegistry) (extensionConfig : ExtensionConfig)
    : extensionRegistry * option error :=
  let r1 := remove r extensionConfig in
  let '(registrations, allErrs) :=
    foldl (add_handler extensionConfig) ([], [])
      (status_Handlers (Status extensionConfig)) in
  if bool_decide (0 < length allErrs) then
    (r1, Some (NewAggregate allErrs))
  else
    ({| ready := ready r1; items := foldl store (items r1) registrations |},
     None).

(** One turn of the loop of [WarmUp]. *)
Definition WarmUp_item (acc : extensionRegistry * list error)
    (extensionConfig : ExtensionConfig) : extensionRegistry * list error :=
  let '(r, allErrs) := acc in
  match add r extensionConfig with
  | (r', Some err) => (r', allErrs ++ [err])
  | (r', None) => (r', allErrs)
  end.

Definition WarmUp (r : extensionRegistry)
    (extensionConfigList : option ExtensionConfigList)
    : extensionRegistry * option error :=
  match extensionConfigList with
  | None =>
      (r, Some (errors_New
        "invalid argument: when calling WarmUp extensionConfigList must not be nil"))
  | Some l =>
      if ready r then
        (r, Some (errors_New
          "invalid operation: WarmUp cannot be called on a registry which has already been warmed up"))
      else
        let '(r', allErrs) := foldl WarmUp_item (r, []) (Items l) in
        if bool_decide (0 < length allErrs) then
          ({| ready := ready r'; items := ∅ |}, Some (NewAggregate allErrs))
        else
          ({| ready := true; items := items r' |}, None)
  end.

Definition Add (r : extensionRegistry)
    (extensionConfig : option ExtensionConfig)
    : extensionRegistry * option error :=
  match extensionConfig with
  | None =>
      (r, Some (errors_New
        "invalid argument: when calling Add extensionConfig must not be nil"))
  | Some cfg =>
      if negb (ready r) then
        (r, Some (errors_New
          "invalid operation: Add cannot be called on a registry which has not been warmed up"))
      else add r cfg
  end.

Definition Remove (r : extensionRegistry)
    (extensionConfig : option ExtensionConfig)
    : extensionRegistry * option error :=
  match extensionConfig with
  | None =>
      (r, Some (errors_New
        "invalid argument: when calling Remove extensionConfig must not be nil"))
  | Some cfg =>
      if negb (ready r) then
        (r, Some (errors_New
          "invalid operation: Remove cannot be called on a registry which has not been warmed up"))
      else (remove r cfg, None)
  end.

(** [List] and [Get] only read the registry. The slice [List] returns
    follows the iteration order of the map, which Go leaves unspecified;
    here it is the order of [map_to_list]. *)
Definition List (r : extensionRegistry) (gh : GroupHook)
    : result (list ExtensionRegistration) :=
  if decide (gh_Group gh = EmptyString) then
    Err (errors_New
      "invalid argument: when calling List gh.Group must not be empty")
  else if decide (gh_Hook gh = EmptyString) then
    Err (errors_New
      "invalid argument: when calling List gh.Hook must not be empty")
  else if negb (ready r) then
    Err (errors_New
      "invalid operation: List cannot be called on a registry which has not been warmed up")
  else
    Ok (filter
          (λ registration,
             gvh_Group (reg_GroupVersionHook registration) = gh_Group gh ∧
             gvh_Hook (reg_GroupVersionHook registration) = gh_Hook gh)
          (map_to_list (items r)).*2).

Definition Get (r : extensionRegistry) (name : string)
    : result ExtensionRegistration :=
  if negb (ready r) then
    Err (errors_New
      "invalid operation: Get cannot called on a registry not yet ready")
  else
    match items r !! name with
    | None =>
        Err (errors_New
          ("RuntimeExtension with name " +:+ quote name +:+
           " has not been registered"))
    | Some registration => Ok registration
    end.

End Registry.

(** The behaviour of [schema.ParseGroupVersion] of k8s.io/apimachinery, to
    run the registry on concrete inputs: the empty string and a lone slash
    give the empty group-version, a string without slash is a version of the
    core group, one slash separates group and version, and anything else is
    an error. *)
Fixpoint IndexRune (s : string) (c : Ascii.ascii) : option nat :=
  match s with
  | EmptyString => None
  | String a rest =>
      if decide (a = c) then Some 0 else S <$> IndexRune rest c
  end.

Fixpoint Count (s : string) (c : Ascii.ascii) : nat :=
  match s with
  | EmptyString => 0
  | String a rest => (if decide (a = c) then 1 else 0) + Count rest c
  end.

Definition Separator : Ascii.ascii := Ascii.ascii_of_nat 47.

Definition slice_to (s : string) (i : nat) : string := String.substring 0 i s.
Definition slice_from (s : string) (i : nat) : string :=
  String.substring i (String.length s - i) s.

Definition schema_ParseGroupVersion (gv : string) : result GroupVersion :=
  if bool_decide (String.length gv = 0) || bool_decide (gv = "/") then
    Ok {| gv_Group := EmptyString; gv_Version := EmptyString |}
  else
    match Count gv Separator, IndexRune gv Separator with
    | 0, _ => Ok {| gv_Group := EmptyString; gv_Version := gv |}
    | 1, Some i =>
        Ok {| gv_Group := slice_to gv i; gv_Version := slice_from gv (i + 1) |}
    | _, _ => Err (errors_New ("unexpected GroupVersion string: " +:+ gv))
    end.

(** ** The reconciler (package [controllers]) *)

Record NamespacedName : Type := mkNamespacedName {
  nn_Namespace : string;
  nn_Name : string
}.

(** [ctrl.Request] and [ctrl.Result]; the reconciler never sets
    [RequeueAfter]. *)
Record Request : Type := mkRequest {
  req_NamespacedName : NamespacedName
}.

Record Result : Type := mkResult {
  Requeue : bool
}.

Record Secret : Type := mkSecret {
  Data : gmap string (list Byte.byte)
}.

Definition tlsCAKey : string := "ca.crt".

(** Modelled from the spec: the names of the annotation, of the condition
    types and of their reasons are constants of the API packages
    (exp/runtime/api/v1alpha1, api/v1beta2), which are not among the
    sources; the spec speaks of a trust-bundle-source annotation and of a
    Discovered condition with a reason code. Nothing proved below depends on
    their spelling. *)
Definition InjectCAFromSecretAnnotation : string :=
  "runtime.cluster.x-k8s.io/inject-ca-from-secret".
Definition ExtensionConfigDiscoveredCondition : string := "Discovered".
Definition ExtensionConfigDiscoveredReason : string := "Discovered".
Definition ExtensionConfigNotDiscoveredReason : string := "NotDiscovered".
Definition RuntimeExtensionDiscoveredV1Beta1Condition : string := "Discovered".
Definition DiscoveryFailedV1Beta1Reason : string := "DiscoveryFailed".
Definition ConditionSeverityError : string := "Error".
Definition ConditionTrue : string := "True".
Definition ConditionFalse : string := "False".

(** Modelled from the spec: [conditions.Set] and the v1beta1 [MarkTrue] and
    [MarkFalse] live in util/conditions, which is not among the sources. The
    spec asks for a status-condition abstraction attachable to a config
    object: setting a condition replaces the one of the same type, or adds
    it. *)
Fixpoint setStatusCondition (conds : list Condition) (c : Condition)
    : list Condition :=
  match conds with
  | [] => [c]
  | x :: rest =>
      if decide (cond_Type x = cond_Type c) then c :: rest
      else x :: setStatusCondition rest c
  end.

Fixpoint setV1Beta1Condition (conds : list V1Beta1Condition)
    (c : V1Beta1Condition) : list V1Beta1Condition :=
  match conds with
  | [] => [c]
  | x :: rest =>
      if decide (v1c_Type x = v1c_Type c) then c :: rest
      else x :: setV1Beta1Condition rest c
  end.

Definition FindStatusCondition (conds : list Condition) (type : string)
    : option Condition :=
  List.find (λ c, bool_decide (cond_Type c = type)) conds.

Definition with_Status (obj : ExtensionConfig) (st : ExtensionConfigStatus)
    : ExtensionConfig :=
  {| Name := Name obj; Namespace := Namespace obj;
     Annotations := Annotations obj;
     DeletionTimestamp := DeletionTimestamp obj;
     Spec := Spec obj; Status := st |}.

Definition conditions_Set (obj : ExtensionConfig) (c : Condition)
    : ExtensionConfig :=
  with_Status obj
    {| status_Handlers := status_Handlers (Status obj);
       status_Conditions := setStatusCondition (status_Conditions (Status obj)) c;
       status_V1Beta1Conditions := status_V1Beta1Conditions (Status obj) |}.

Definition v1beta1conditions_Set (obj : ExtensionConfig)
    (c : V1Beta1Condition) : ExtensionConfig :=
  with_Status obj
    {| status_Handlers := status_Handlers (Status obj);
       status_Conditions := status_Conditions (Status obj);
       status_V1Beta1Conditions :=
         setV1Beta1Condition (status_V1Beta1Conditions (Status obj)) c |}.

Definition v1beta1conditions_MarkFalse (obj : ExtensionConfig)
    (type reason severity message : string) : ExtensionConfig :=
  v1beta1conditions_Set obj
    {| v1c_Type := type; v1c_Status := ConditionFalse;
       v1c_Severity := severity; v1c_Reason := reason;
       v1c_Message := message |}.

Definition v1beta1conditions_MarkTrue (obj : ExtensionConfig)
    (type : string) : ExtensionConfig :=
  v1beta1conditions_Set obj
    {| v1c_Type := type; v1c_Status := ConditionTrue;
       v1c_Severity := EmptyString; v1c_Reason := EmptyString;
       v1c_Message := EmptyString |}.

(** The object with another list of conditions: what the pause check leaves
    behind in the object it is given. *)
Definition with_Conditions (obj : ExtensionConfig) (conds : list Condition)
    : ExtensionConfig :=
  with_Status obj
    {| status_Handlers := status_Handlers (Status obj);
       status_Conditions := conds;
       status_V1Beta1Conditions := status_V1Beta1Conditions (Status obj) |}.

Definition with_CABundle (obj : ExtensionConfig) (caData : list Byte.byte)
    : ExtensionConfig :=
  {| Name := Name obj; Namespace := Namespace obj;
     Annotations := Annotations obj;
     DeletionTimestamp := DeletionTimestamp obj;
     Spec := {| spec_ClientConfig :=
       {| cc_URL := cc_URL (spec_ClientConfig (Spec obj));
          cc_Service := cc_Service (spec_ClientConfig (Spec obj));
          cc_CABundle := caData |} |};
     Status := Status obj |}.

(** [klog.KObj]: namespace/name, or the name alone. *)
Definition KObj (obj : ExtensionConfig) : string :=
  if decide (Namespace obj = EmptyString) then Name obj
  else Namespace obj +:+ "/" +:+ Name obj.

(** [metav1.Time.IsZero] on a pointer. *)
Definition IsZero (t : option Z) : bool :=
  match t with
  | None => true
  | Some z => bool_decide (z = 0%Z)
  end.

Definition splitNamespacedName (nameStr : string) : NamespacedName :=
  match IndexRune nameStr Separator with
  | None => {| nn_Namespace := EmptyString; nn_Name := nameStr |}
  | Some splitPoint =>
      {| nn_Namespace := slice_to nameStr splitPoint;
         nn_Name := slice_from nameStr (splitPoint + 1) |}
  end.

(** The collaborators of one reconciliation cycle. Each is called at most
    once in a cycle, so its behaviour in the cycle is a function of its
    arguments. The pause check reports the conditions it leaves in the
    object, and the patch helper the object as the store returned it. *)
Record Collaborators : Type := mkCollaborators {
  client_Get : NamespacedName → result ExtensionConfig;
  IsNotFound : error → bool;
  EnsurePausedCondition :
    ExtensionConfig → list Condition * bool * bool * option error;
  client_GetSecret : NamespacedName → result Secret;
  Discover : ExtensionConfig → result ExtensionConfig;
  patchHelper_Patch :
    ExtensionConfig → ExtensionConfig → ExtensionConfig * option error
}.

(** The calls a cycle makes, in order. *)
Inductive Call : Type :=
| CallIsReady
| CallGet (key : NamespacedName)
| CallEnsurePausedCondition (obj : ExtensionConfig)
| CallGetSecret (key : NamespacedName)
| CallDiscover (obj : ExtensionConfig)
| CallPatch (original modified : ExtensionConfig)
| CallRegister (obj : ExtensionConfig)
| CallUnregister (obj : ExtensionConfig).

(** What a cycle acts on: the registry behind the runtime client, and the
    trace of its calls. *)
Record World : Type := mkWorld {
  registry : extensionRegistry;
  calls : list Call
}.

Definition start (r : extensionRegistry) : World :=
  {| registry := r; calls := [] |}.

Definition call (w : World) (c : Call) : World :=
  {| registry := registry w; calls := calls w ++ [c] |}.

Definition with_registry (w : World) (r : extensionRegistry) : World :=
  {| registry := r; calls := calls w |}.

Definition is_patch (c : Call) : bool :=
  match c with CallPatch _ _ => true | _ => false end.
Definition is_discover (c : Call) : bool :=
  match c with CallDiscover _ => true | _ => false end.
Definition is_register (c : Call) : bool :=
  match c with CallRegister _ => true | _ => false end.
Definition is_unregister (c : Call) : bool :=
  match c with CallUnregister _ => true | _ => false end.

Definition emptyExtensionConfig : ExtensionConfig :=
  {| Name := EmptyString; Namespace := EmptyString; Annotations := ∅;
     DeletionTimestamp := None;
     Spec := {| spec_ClientConfig :=
       {| cc_URL := None; cc_Service := None; cc_CABundle := [] |} |};
     Status := {| status_Handlers := []; status_Conditions := [];
                  status_V1Beta1Conditions := [] |} |}.

Definition with_identity (obj : ExtensionConfig) (key : NamespacedName)
    : ExtensionConfig :=
  {| Name := nn_Name key; Namespace := nn_Namespace key;
     Annotations := Annotations obj;
     DeletionTimestamp := DeletionTimestamp obj;
     Spec := Spec obj; Status := Status obj |}.

Section Reconciler.

Variable ParseGroupVersion : string → result GroupVersion.
Variable κ : Collaborators.

(** Modelled from the spec: the runtime client (exp/runtime/client) is not
    among the sources. The spec has the readiness gate read the registry's
    readiness, the register step call the registry's Add with the updated
    object, and the deletion handling call its Remove. *)
Definition RuntimeClient_IsReady (w : World) : World * bool :=
  (call w CallIsReady, IsReady (registry w)).

Definition RuntimeClient_Register (w : World) (extensionConfig : ExtensionConfig)
    : World * option error :=
  let w1 := call w (CallRegister extensionConfig) in
  let '(r', err) := Add ParseGroupVersion (registry w1) (Some extensionConfig) in
  (with_registry w1 r', err).

Definition RuntimeClient_Unregister (w : World)
    (extensionConfig : ExtensionConfig) : World * option error :=
  let w1 := call w (CallUnregister extensionConfig) in
  let '(r', err) := Remove (registry w1) (Some extensionConfig) in
  (with_registry w1 r', err).

Definition patchExtensionConfig (w : World)
    (original modified : ExtensionConfig)
    : World * (ExtensionConfig * option error) :=
  (call w (CallPatch original modified),
   patchHelper_Patch κ original modified).

Definition reconcileDelete (w : World) (extensionConfig : ExtensionConfig)
    : World * (Result * option error) :=
  match RuntimeClient_Unregister w extensionConfig with
  | (w', Some err) =>
      (w', ({| Requeue := false |},
            Some (errors_Wrap err
              ("failed to unregister ExtensionConfig " +:+
               KObj extensionConfig))))
  | (w', None) => (w', ({| Requeue := false |}, None))
  end.

(** Returns the config with its CA bundle injected, or the error; on an
    error the config is as it was. *)
Definition reconcileCABundle (w : World) (config : ExtensionConfig)
    : World * result ExtensionConfig :=
  match Annotations config !! InjectCAFromSecretAnnotation with
  | None => (w, Ok config)
  | Some secretNameRaw =>
      let secretName := splitNamespacedName secretNameRaw in
      if bool_decide (nn_Namespace secretName = EmptyString)
         || bool_decide (nn_Name secretName = EmptyString) then
        (w, Err (errors_New
          ("failed to reconcile caBundle: secret name " +:+
           quote secretNameRaw +:+
           " must be in the form <namespace>/<name>")))
      else
        let w1 := call w (CallGetSecret secretName) in
        match client_GetSecret κ secretName with
        | Err err =>
            (w1, Err (errors_Wrap err
              ("failed to reconcile caBundle: failed to get secret " +:+
               quote secretNameRaw)))
        | Ok secret =>
            match Data secret !! tlsCAKey with
            | None =>
                (w1, Err (errors_New
                  ("failed to reconcile caBundle: secret " +:+
                   secretNameRaw +:+ " does not contain a " +:+
                   quote tlsCAKey +:+ " entry")))
            | Some caData => (w1, Ok (with_CABundle config caData))
            end
        end
  end.

Definition discoverExtensionConfig (w : World)
    (extensionConfig : ExtensionConfig)
    : World * (ExtensionConfig * option error) :=
  let w1 := call w (CallDiscover extensionConfig) in
  match Discover κ extensionConfig with
  | Err err =>
      let modifiedExtensionConfig :=
        conditions_Set
          (v1beta1conditions_MarkFalse extensionConfig
             RuntimeExtensionDiscoveredV1Beta1Condition
             DiscoveryFailedV1Beta1Reason ConditionSeverityError
             ("Error in discovery: " +:+ Error err))
          {| cond_Type := ExtensionConfigDiscoveredCondition;
             cond_Status := ConditionFalse;
             cond_Reason := ExtensionConfigNotDiscoveredReason;
             cond_Message := "Error in discovery: " +:+ Error err |} in
      (w1, (modifiedExtensionConfig,
            Some (errors_Wrap err
              ("failed to discover ExtensionConfig " +:+
               KObj extensionConfig))))
  | Ok discoveredExtension =>
      (w1, (conditions_Set
              (v1beta1conditions_MarkTrue discoveredExtension
                 RuntimeExtensionDiscoveredV1Beta1Condition)
              {| cond_Type := ExtensionConfigDiscoveredCondition;
                 cond_Status := ConditionTrue;
                 cond_Reason := ExtensionConfigDiscoveredReason;
                 cond_Message := EmptyString |},
            None))
  end.

Definition append_err (errs : list error) (err : option error) : list error :=
  match err with
  | Some e => errs ++ [e]
  | None => errs
  end.

Definition Reconcile (w : World) (req : Request)
    : World * (Result * option error) :=
  let '(w1, isReady) := RuntimeClient_IsReady w in
  if negb isReady then (w1, ({| Requeue := true |}, None))
  else
    let w2 := call w1 (CallGet (req_NamespacedName req)) in
    match client_Get κ (req_NamespacedName req) with
    | Err err =>
        if IsNotFound κ err then
          reconcileDelete w2
            (with_identity emptyExtensionConfig (req_NamespacedName req))
        else (w2, ({| Requeue := false |}, Some err))
    | Ok extensionConfig =>
        let original := extensionConfig in
        let w3 := call w2 (CallEnsurePausedCondition extensionConfig) in
        let '(conds, isPaused, requeue, err) :=
          EnsurePausedCondition κ extensionConfig in
        let extensionConfig1 := with_Conditions extensionConfig conds in
        if bool_decide (is_Some err) || isPaused || requeue then
          (w3, ({| Requeue := false |}, err))
        else if negb (IsZero (DeletionTimestamp extensionConfig1)) then
          reconcileDelete w3 extensionConfig1
        else
          match reconcileCABundle w3 extensionConfig1 with
          | (w4, Err err) => (w4, ({| Requeue := false |}, Some err))
          | (w4, Ok extensionConfig2) =>
              let '(w5, (discoveredExtensionConfig, derr)) :=
                discoverExtensionConfig w4 extensionConfig2 in
              let errs := append_err [] derr in
              let '(w6, (patched, perr)) :=
                patchExtensionConfig w5 original discoveredExtensionConfig in
              let errs := append_err errs perr in
              if negb (bool_decide (length errs = 0)) then
                (w6, ({| Requeue := false |}, Some (NewAggregate errs)))
              else
                match RuntimeClient_Register w6 patched with
                | (w7, Some err) =>
                    (w7, ({| Requeue := false |},
                          Some (errors_Wrap err
                            ("failed to register ExtensionConfig " +:+
                             Namespace extensionConfig2 +:+ "/" +:+
                             Name extensionConfig2))))
                | (w7, None) => (w7, ({| Requeue := false |}, None))
                end
          end
    end.

End Reconciler.

(** ** Notions the statements use *)

(** The map of a registry is keyed by the names of its registrations: every
    store is [r.items[registration.Name] = registration]. *)
Definition keyed_by_name (m : gmap string ExtensionRegistration) : Prop :=
  ∀ k e, m !! k = Some e → reg_Name e = k.

(** The entries of a map that a config does not own. *)
Definition not_owned_by (owner : string)
    (m : gmap string ExtensionRegistration)
    : gmap string ExtensionRegistration :=
  filter (λ kv, reg_ExtensionConfigName kv.2 ≠ owner) m.

(** The entries of a map for a group and a hook, whatever the version. *)
Definition matching (gh : GroupHook)
    (m : gmap string ExtensionRegistration)
    : gmap string ExtensionRegistration :=
  filter (λ kv, gvh_Group (reg_GroupVersionHook kv.2) = gh_Group gh ∧
                gvh_Hook (reg_GroupVersionHook kv.2) = gh_Hook gh) m.

Definition owned_by_config (cfg : ExtensionConfig)
    (regs : list ExtensionRegistration) : Prop :=
  ∀ reg, reg ∈ regs → reg_ExtensionConfigName reg = Name cfg.

Section RegistryNotions.

Variable ParseGroupVersion : string → result GroupVersion.

Definition parses (apiVersion : string) : bool :=
  match ParseGroupVersion apiVersion with
  | Ok _ => true
  | Err _ => false
  end.

(** Every handler of the config has a parseable API-version string. *)
Definition parseable (extensionConfig : ExtensionConfig) : Prop :=
  ∀ e, e ∈ status_Handlers (Status extensionConfig) →
       parses (rh_APIVersion (eh_RequestHook e)) = true.

(** The states of a registry: what [New] returns, and what the methods that
    write leave behind, whatever their arguments and their outcome. *)
Inductive reachable : extensionRegistry → Prop :=
| reachable_New : reachable New
| reachable_WarmUp r l :
    reachable r → reachable (WarmUp ParseGroupVersion r l).1
| reachable_Add r cfg :
    reachable r → reachable (Add ParseGroupVersion r cfg).1
| reachable_Remove r cfg :
    reachable r → reachable (Remove r cfg).1.

End RegistryNotions.

(** ** Concrete configs, after the scenarios of the specification *)

Definition handler (name apiVersion hook : string) : ExtensionHandler :=
  {| eh_Name := name;
     eh_RequestHook := {| rh_APIVersion := apiVersion; rh_Hook := hook |};
     eh_TimeoutSeconds := None; eh_FailurePolicy := None |}.

Definition config (name : string) (annotations : gmap string string)
    (handlers : list ExtensionHandler) : ExtensionConfig :=
  {| Name := name; Namespace := EmptyString; Annotations := annotations;
     DeletionTimestamp := None;
     Spec := {| spec_ClientConfig :=
       {| cc_URL := Some "https://extension.example"; cc_Service := None;
          cc_CABundle := [] |} |};
     Status := {| status_Handlers := handlers; status_Conditions := [];
                  status_V1Beta1Conditions := [] |} |}.

Definition cfgA : ExtensionConfig :=
  config "A" ∅ [handler "h1" "g/v1" "BeforeScale"].
Definition cfgB : ExtensionConfig :=
  config "B" ∅ [handler "h2" "g/v2" "AfterProvision";
                handler "h3" "g/v2" "BeforeScale"].
(** [cfgA] redeclared with a second handler whose API version has two
    slashes. *)
Definition cfgA_malformed : ExtensionConfig :=
  config "A" ∅ [handler "h1" "g/v1" "BeforeScale";
                handler "h4" "a/b/c" "BeforeScale"].
(** A config that owns nothing in the registry. *)
Definition cfgC : ExtensionConfig := config "C" ∅ [].

(** The registry warmed up with [cfgA] and [cfgB]. *)
Definition warm : extensionRegistry :=
  (WarmUp schema_ParseGroupVersion New
     (Some {| Items := [cfgA; cfgB] |})).1.

(** A config that asks for the CA bundle of the secret ns/ca-secret, a
    secret without the CA entry, and collaborators for one cycle: the store
    returns [cfg], the object is not paused, the secret reader answers
    [secret], the discovery answers [discovery], and the patch goes
    through. *)
Definition cfgS : ExtensionConfig :=
  config "S" {[ InjectCAFromSecretAnnotation := "ns/ca-secret" ]}
    [handler "h5" "g/v1" "BeforeScale"].

Definition secret_without_CA : Secret :=
  {| Data := {[ "tls.crt" := [] ]} |}.

Definition collaborators (cfg : ExtensionConfig) (secret : result Secret)
    (discovery : result ExtensionConfig) : Collaborators :=
  {| client_Get := λ _, Ok cfg;
     IsNotFound := λ _, false;
     EnsurePausedCondition :=
       λ obj, (status_Conditions (Status obj), false, false, None);
     client_GetSecret := λ _, secret;
     Discover := λ _, discovery;
     patchHelper_Patch := λ _ modified, (modified, None) |}.

Definition request (name : string) : Request :=
  {| req_NamespacedName :=
       {| nn_Namespace := EmptyString; nn_Name := name |} |}.

(** ** What [add] builds, handler by handler *)

(** The registration [add] builds for a handler whose API version parsed to
    [gv]. *)
Definition registration_of (extensionConfig : ExtensionConfig)
    (e : ExtensionHandler) (gv : GroupVersion) : ExtensionRegistration :=
  {| reg_ExtensionConfigName := Name extensionConfig;
     reg_Name := eh_Name e;
     reg_GroupVersionHook :=
       {| gvh_Group := gv_Group gv;
          gvh_Version := gv_Version gv;
          gvh_Hook := rh_Hook (eh_RequestHook e) |};
     reg_ClientConfig := spec_ClientConfig (Spec extensionConfig);
     reg_TimeoutSeconds := eh_TimeoutSeconds e;
     reg_FailurePolicy := eh_FailurePolicy e |}.

Section HandlerByHandler.

Variable ParseGroupVersion : string → result GroupVersion.

Definition registration_for (extensionConfig : ExtensionConfig)
    (e : ExtensionHandler) : option ExtensionRegistration :=
  match ParseGroupVersion (rh_APIVersion (eh_RequestHook e)) with
  | Ok gv => Some (registration_of extensionConfig e gv)
  | Err _ => None
  end.

Definition parse_error_for (e : ExtensionHandler) : option error :=
  match ParseGroupVersion (rh_APIVersion (eh_RequestHook e)) with
  | Ok _ => None
  | Err err =>
      Some (errors_Wrap err
        ("failed to parse GroupVersion " +:+
         quote (rh_APIVersion (eh_RequestHook e))))
  end.

(** The error of [add] for a config, which the registry has no part in. *)
Definition config_error (extensionConfig : ExtensionConfig) : option error :=
  match omap parse_error_for (status_Handlers (Status extensionConfig)) with
  | [] => None
  | errs => Some (NewAggregate errs)
  end.

End HandlerByHandler.

(** The names a config declares, and the names a list of configs declares. *)
Definition handler_names (extensionConfig : ExtensionConfig) : list string :=
  eh_Name <$> status_Handlers (Status extensionConfig).

(** ** The secret-change mapping (package [controllers]) *)

(** [metav1.PartialObjectMetadata], by the two fields read from it. *)
Record PartialObjectMetadata : Type := mkPartialObjectMetadata {
  pom_Namespace : string;
  pom_Name : string
}.

(** [r.Client.List] with the matching field of the index on the annotation
    is a collaborator: a function of the index key. A nil slice and an
    empty slice are both the empty list. *)
Definition secretToExtensionConfig
    (client_List : string → result ExtensionConfigList)
    (secret : PartialObjectMetadata) : list Request :=
  let indexKey := pom_Namespace secret +:+ "/" +:+ pom_Name secret in
  match client_List indexKey with
  | Err _ => []
  | Ok extensionConfigs =>
      foldl (λ result ext,
               result ++
               [{| req_NamespacedName :=
                     {| nn_Namespace := EmptyString; nn_Name := Name ext |} |}])
        [] (Items extensionConfigs)
  end.

(** ** The paths of a reconciliation cycle *)

Definition is_get_secret (c : Call) : bool :=
  match c with CallGetSecret _ => true | _ => false end.

Section Paths.

Variable ParseGroupVersion : string → result GroupVersion.
Variable κ : Collaborators.

(** The outcomes of the CA-bundle step. *)
Inductive CA_step (w : World) (config : ExtensionConfig)
    : World → result ExtensionConfig → Prop :=
| CA_no_annotation :
    Annotations config !! InjectCAFromSecretAnnotation = None →
    CA_step w config w (Ok config)
| CA_malformed_name secretNameRaw :
    Annotations config !! InjectCAFromSecretAnnotation = Some secretNameRaw →
    nn_Namespace (splitNamespacedName secretNameRaw) = EmptyString ∨
    nn_Name (splitNamespacedName secretNameRaw) = EmptyString →
    CA_step w config w
      (Err (errors_New
        ("failed to reconcile caBundle: secret name " +:+
         quote secretNameRaw +:+
         " must be in the form <namespace>/<name>")))
| CA_secret_unreadable secretNameRaw err :
    Annotations config !! InjectCAFromSecretAnnotation = Some secretNameRaw →
    nn_Namespace (splitNamespacedName secretNameRaw) ≠ EmptyString →
    nn_Name (splitNamespacedName secretNameRaw) ≠ EmptyString →
    client_GetSecret κ (splitNamespacedName secretNameRaw) = Err err →
    CA_step w config
      (call w (CallGetSecret (splitNamespacedName secretNameRaw)))
      (Err (errors_Wrap err
        ("failed to reconcile caBundle: failed to get secret " +:+
         quote secretNameRaw)))
| CA_entry_missing secretNameRaw secret :
    Annotations config !! InjectCAFromSecretAnnotation = Some secretNameRaw →
    nn_Namespace (splitNamespacedName secretNameRaw) ≠ EmptyString →
    nn_Name (splitNamespacedName secretNameRaw) ≠ EmptyString →
    client_GetSecret κ (splitNamespacedName secretNameRaw) = Ok secret →
    Data secret !! tlsCAKey = None →
    CA_step w config
      (call w (CallGetSecret (splitNamespacedName secretNameRaw)))
      (Err (errors_New
        ("failed to reconcile caBundle: secret " +:+ secretNameRaw +:+
         " does not contain a " +:+ quote tlsCAKey +:+ " entry")))
| CA_injected secretNameRaw secret caData :
    Annotations config !! InjectCAFromSecretAnnotation = Some secretNameRaw →
    nn_Namespace (splitNamespacedName secretNameRaw) ≠ EmptyString →
    nn_Name (splitNamespacedName secretNameRaw) ≠ EmptyString →
    client_GetSecret κ (splitNamespacedName secretNameRaw) = Ok secret →
    Data secret !! tlsCAKey = Some caData →
    CA_step w config
      (call w (CallGetSecret (splitNamespacedName secretNameRaw)))
      (Ok (with_CABundle config caData)).

(** The world of a cycle once the object is fetched and found not paused. *)
Definition fetched (r : extensionRegistry) (req : Request)
    (original : ExtensionConfig) : World :=
  {| registry := r;
     calls := [CallIsReady; CallGet (req_NamespacedName req);
               CallEnsurePausedCondition original] |}.

(** The object [discoverExtensionConfig] returns, with its conditions. *)
Definition discovery_object (config : ExtensionConfig) : ExtensionConfig :=
  (discoverExtensionConfig κ (start New) config).2.1.

(** The paths of [Reconcile] from a registry [r]: the world it leaves, its
    result and its error. *)
Inductive cycle (r : extensionRegistry) (req : Request)
    : World → Result → option error → Prop :=
| cycle_not_ready :
    ready r = false →
    cycle r req {| registry := r; calls := [CallIsReady] |}
      {| Requeue := true |} None
| cycle_get_failed err :
    ready r = true →
    client_Get κ (req_NamespacedName req) = Err err →
    IsNotFound κ err = false →
    cycle r req
      {| registry := r;
         calls := [CallIsReady; CallGet (req_NamespacedName req)] |}
      {| Requeue := false |} (Some err)
| cycle_not_found err :
    ready r = true →
    client_Get κ (req_NamespacedName req) = Err err →
    IsNotFound κ err = true →
    cycle r req
      {| registry :=
           remove r (with_identity emptyExtensionConfig
                       (req_NamespacedName req));
         calls := [CallIsReady; CallGet (req_NamespacedName req);
                   CallUnregister
                     (with_identity emptyExtensionConfig
                        (req_NamespacedName req))] |}
      {| Requeue := false |} None
| cycle_paused original conds isPaused requeue err :
    ready r = true →
    client_Get κ (req_NamespacedName req) = Ok original →
    EnsurePausedCondition κ original = (conds, isPaused, requeue, err) →
    is_Some err ∨ isPaused = true ∨ requeue = true →
    cycle r req (fetched r req original) {| Requeue := false |} err
| cycle_deleting original conds :
    ready r = true →
    client_Get κ (req_NamespacedName req) = Ok original →
    EnsurePausedCondition κ original = (conds, false, false, None) →
    IsZero (DeletionTimestamp original) = false →
    cycle r req
      {| registry := remove r (with_Conditions original conds);
         calls := calls (fetched r req original) ++
                  [CallUnregister (with_Conditions original conds)] |}
      {| Requeue := false |} None
| cycle_CA_failed original conds w err :
    ready r = true →
    client_Get κ (req_NamespacedName req) = Ok original →
    EnsurePausedCondition κ original = (conds, false, false, None) →
    IsZero (DeletionTimestamp original) = true →
    CA_step (fetched r req original) (with_Conditions original conds)
      w (Err err) →
    cycle r req w {| Requeue := false |} (Some err)
| cycle_discovery_failed original conds w config derr patched perr :
    ready r = true →
    client_Get κ (req_NamespacedName req) = Ok original →
    EnsurePausedCondition κ original = (conds, false, false, None) →
    IsZero (DeletionTimestamp original) = true →
    CA_step (fetched r req original) (with_Conditions original conds)
      w (Ok config) →
    Discover κ config = Err derr →
    patchHelper_Patch κ original (discovery_object config)
      = (patched, perr) →
    cycle r req
      {| registry := r;
         calls := calls w ++ [CallDiscover config;
                              CallPatch original (discovery_object config)] |}
      {| Requeue := false |}
      (Some (NewAggregate
         (errors_Wrap derr
            ("failed to discover ExtensionConfig " +:+ KObj config)
          :: option_list perr)))
| cycle_patch_failed original conds w config discovered patched perr :
    ready r = true →
    client_Get κ (req_NamespacedName req) = Ok original →
    EnsurePausedCondition κ original = (conds, false, false, None) →
    IsZero (DeletionTimestamp original) = true →
    CA_step (fetched r req original) (with_Conditions original conds)
      w (Ok config) →
    Discover κ config = Ok discovered →
    patchHelper_Patch κ original (discovery_object config)
      = (patched, Some perr) →
    cycle r req
      {| registry := r;
         calls := calls w ++ [CallDiscover config;
                              CallPatch original (discovery_object config)] |}
      {| Requeue := false |} (Some (NewAggregate [perr]))
| cycle_registered original conds w config discovered patched r' rgerr :
    ready r = true →
    client_Get κ (req_NamespacedName req) = Ok original →
    EnsurePausedCondition κ original = (conds, false, false, None) →
    IsZero (DeletionTimestamp original) = true →
    CA_step (fetched r req original) (with_Conditions original conds)
      w (Ok config) →
    Discover κ config = Ok discovered →
    patchHelper_Patch κ original (discovery_object config)
      = (patched, None) →
    Add ParseGroupVersion r (Some patched) = (r', rgerr) →
    cycle r req
      {| registry := r';
         calls := calls w ++ [CallDiscover config;
                              CallPatch original (discovery_object config);
                              CallRegister patched] |}
      {| Requeue := false |}
      ((λ e, errors_Wrap e
              ("failed to register ExtensionConfig " +:+
               Namespace config +:+ "/" +:+ Name config)) <$> rgerr).

End Paths.

(** * Properties of the registry *)

Section RemoveFacts.

Implicit Types m : gmap string ExtensionRegistration.

Lemma keyed_by_name_empty : keyed_by_name ∅.
Proof. intros k e. by rewrite lookup_empty. Qed.

Lemma keyed_by_name_delete m k : keyed_by_name m → keyed_by_name (delete k m).
Proof.
  intros Hm k' e. rewrite lookup_delete_Some. intros [_ Hk']. by apply Hm.
Qed.

Lemma keyed_by_name_store m e : keyed_by_name m → keyed_by_name (store m e).
Proof.
  intros Hm k e'. unfold store. rewrite lookup_insert_Some.
  intros [[<- <-] | [_ Hk]]; [done | by apply Hm].
Qed.

Lemma keyed_by_name_stores regs m :
  keyed_by_name m → keyed_by_name (foldl store m regs).
Proof.
  revert m. induction regs as [| e regs IH]; intros m Hm; simpl; [done |].
  apply IH. by apply keyed_by_name_store.
Qed.

Lemma keyed_by_name_not_owned_by owner m :
  keyed_by_name m → keyed_by_name (not_owned_by owner m).
Proof.
  intros Hm k e. unfold not_owned_by. rewrite map_lookup_filter_Some.
  intros [Hk _]. by apply Hm.
Qed.

(** Reaching a key of a map keyed by name either deletes that very key or
    leaves the map alone. *)
Lemma remove_visit_keyed owner m k :
  keyed_by_name m →
  remove_visit owner m k =
    match m !! k with
    | Some e => if decide (reg_ExtensionConfigName e = owner)
                then delete k m else m
    | None => m
    end.
Proof.
  intros Hm. unfold remove_visit. destruct (m !! k) as [e |] eqn:Hk; [| done].
  by rewrite (Hm k e Hk).
Qed.

Lemma keyed_by_name_remove_visit owner m k :
  keyed_by_name m → keyed_by_name (remove_visit owner m k).
Proof.
  intros Hm. rewrite remove_visit_keyed by done.
  destruct (m !! k) as [e |]; [| done].
  destruct (decide (reg_ExtensionConfigName e = owner));
    [by apply keyed_by_name_delete | done].
Qed.

Lemma remove_visit_lookup owner m k0 k :
  keyed_by_name m →
  remove_visit owner m k0 !! k =
    match m !! k with
    | Some e =>
        if decide (reg_ExtensionConfigName e = owner ∧ k = k0)
        then None else Some e
    | None => None
    end.
Proof.
  intros Hm. rewrite remove_visit_keyed by done.
  destruct (decide (k = k0)) as [-> | Hne].
  - destruct (m !! k0) as [e0 |] eqn:Hk0; [| by rewrite Hk0].
    destruct (decide (reg_ExtensionConfigName e0 = owner)) as [Ho | Ho].
    + rewrite lookup_delete_eq. by rewrite decide_True.
    + rewrite Hk0. rewrite decide_False; [done | by intros [? _]].
  - assert (Hk : (match m !! k0 with
                  | Some e => if decide (reg_ExtensionConfigName e = owner)
                              then delete k0 m else m
                  | None => m
                  end) !! k = m !! k).
    { destruct (m !! k0) as [e0 |]; [| done].
      destruct (decide (reg_ExtensionConfigName e0 = owner));
        [by rewrite lookup_delete_ne | done]. }
    rewrite Hk. destruct (m !! k) as [e |]; [| done].
    rewrite decide_False; [done | by intros [_ ?]].
Qed.

(** The loop of [remove], whatever the iteration order: an entry is gone
    exactly when its key was reached and its owner is the config. *)
Lemma remove_range_lookup owner order m k :
  keyed_by_name m →
  remove_range owner order m !! k =
    match m !! k with
    | Some e =>
        if decide (reg_ExtensionConfigName e = owner ∧ k ∈ order)
        then None else Some e
    | None => None
    end.
Proof.
  unfold remove_range. revert m.
  induction order as [| k0 order IH]; intros m Hm; simpl.
  - destruct (m !! k) as [e |]; [| done].
    rewrite decide_False; [done |]. intros [_ H]. by apply elem_of_nil in H.
  - rewrite IH by (by apply keyed_by_name_remove_visit).
    rewrite remove_visit_lookup by done.
    destruct (m !! k) as [e |]; [| done].
    destruct (decide (reg_ExtensionConfigName e = owner ∧ k = k0)) as [[Ho ->] | Hn].
    + rewrite decide_True; [done |]. split; [done | apply list_elem_of_here].
    + destruct (decide (reg_ExtensionConfigName e = owner ∧ k ∈ order))
        as [[Ho Hin] | Hn'].
      * rewrite decide_True; [done |]. split; [done |]. by apply list_elem_of_further.
      * rewrite decide_False; [done |]. intros [Ho Hin].
        apply elem_of_cons in Hin as [-> | Hin]; [by apply Hn | by apply Hn'].
Qed.

(** Whatever the order in which the loop reaches the keys, as long as it
    reaches every key of the map, the loop deletes the entries of the owner
    and only them. *)
Lemma remove_range_any_order owner order m :
  keyed_by_name m →
  (∀ k, is_Some (m !! k) → k ∈ order) →
  remove_range owner order m = not_owned_by owner m.
Proof.
  intros Hm Hall. apply map_eq. intros k.
  rewrite remove_range_lookup by done.
  unfold not_owned_by. rewrite map_lookup_filter.
  destruct (m !! k) as [e |] eqn:Hk; simpl; [| done].
  assert (Hin : k ∈ order) by (apply Hall; by rewrite Hk).
  destruct (decide (reg_ExtensionConfigName e = owner)) as [Ho | Ho].
  - rewrite decide_True by done. by rewrite option_guard_False by (by intros ?).
  - rewrite decide_False by (by intros [? _]). by rewrite option_guard_True.
Qed.

(** [remove] deletes the registrations of the config, and only them. *)
Lemma remove_items r cfg :
  keyed_by_name (items r) →
  items (remove r cfg) = not_owned_by (Name cfg) (items r).
Proof.
  intros Hm. simpl. apply remove_range_any_order; [done |].
  intros k [e Hk]. apply list_elem_of_fmap. exists (k, e). split; [done |].
  by apply elem_of_map_to_list.
Qed.

Lemma remove_ready r cfg : ready (remove r cfg) = ready r.
Proof. done. Qed.

End RemoveFacts.

Section AddFacts.

Variable P : string → result GroupVersion.
Implicit Types m : gmap string ExtensionRegistration.

(** The loop over the handlers collects an error exactly for the handlers
    that do not parse. *)
Lemma add_handlers_errs cfg hs regs errs :
  (foldl (add_handler P cfg) (regs, errs) hs).2 = [] ↔
  errs = [] ∧ ∀ e, e ∈ hs → parses P (rh_APIVersion (eh_RequestHook e)) = true.
Proof.
  revert regs errs. induction hs as [| h hs IH]; intros regs errs; cbn [foldl].
  - simpl. split; [intros ->; split; [done |] | by intros [-> _]].
    intros e He. by apply elem_of_nil in He.
  - destruct (add_handler P cfg (regs, errs) h) as [regs' errs'] eqn:Hstep.
    rewrite IH. unfold add_handler in Hstep. unfold parses.
    destruct (P (rh_APIVersion (eh_RequestHook h)))
      as [gv | err] eqn:Hp; injection Hstep as <- <-.
    + split.
      * intros [-> Hall]. split; [done |]. intros e He.
        apply elem_of_cons in He as [-> | He]; [by rewrite Hp | by apply Hall].
      * intros [-> Hall]. split; [done |]. intros e He. apply Hall.
        by apply list_elem_of_further.
    + split.
      * intros [Habs _]. by destruct errs.
      * intros [_ Hall]. specialize (Hall h (list_elem_of_here _ _)).
        by rewrite Hp in Hall.
Qed.

Lemma add_handlers_owned cfg hs regs errs :
  owned_by_config cfg regs →
  owned_by_config cfg (foldl (add_handler P cfg) (regs, errs) hs).1.
Proof.
  revert regs errs. induction hs as [| h hs IH]; intros regs errs Ho;
    cbn [foldl]; [done |].
  destruct (add_handler P cfg (regs, errs) h) as [regs' errs'] eqn:Hstep.
  apply IH. unfold add_handler in Hstep.
  destruct (P (rh_APIVersion (eh_RequestHook h)));
    injection Hstep as <- <-; [| done].
  intros reg Hreg. apply elem_of_app in Hreg as [Hreg | Hreg]; [by apply Ho |].
  apply list_elem_of_singleton in Hreg. by subst.
Qed.

(** A config whose handlers all parse: its registrations, which depend on
    the config alone, are stored over what [remove] left. *)
Lemma add_parseable cfg :
  parseable P cfg →
  ∃ regs, owned_by_config cfg regs ∧
    ∀ r, add P r cfg =
         ({| ready := ready r;
             items := foldl store (items (remove r cfg)) regs |}, None).
Proof.
  intros Hp.
  exists (foldl (add_handler P cfg) ([], [])
            (status_Handlers (Status cfg))).1.
  split.
  { apply add_handlers_owned. intros reg Hreg. by apply elem_of_nil in Hreg. }
  intros r. unfold add.
  destruct (foldl (add_handler P cfg) ([], []) (status_Handlers (Status cfg)))
    as [regs errs] eqn:Hfold.
  assert (Herrs : errs = []).
  { change errs with (regs, errs).2. rewrite <- Hfold.
    by apply add_handlers_errs. }
  subst errs. done.
Qed.

(** A config with a handler that does not parse: nothing is stored, and the
    aggregate of the parse errors is returned; [remove] has run. *)
Lemma add_not_parseable cfg :
  ¬ parseable P cfg →
  ∃ errs, errs ≠ [] ∧
    ∀ r, add P r cfg = (remove r cfg, Some (NewAggregate errs)).
Proof.
  intros Hp.
  exists (foldl (add_handler P cfg) ([], [])
            (status_Handlers (Status cfg))).2.
  assert (Hne : (foldl (add_handler P cfg) ([], [])
                   (status_Handlers (Status cfg))).2 ≠ []).
  { intros Habs. apply Hp. by apply add_handlers_errs in Habs as [_ ?]. }
  split; [done |].
  intros r. unfold add.
  destruct (foldl (add_handler P cfg) ([], []) (status_Handlers (Status cfg)))
    as [regs errs] eqn:Hfold. simpl in *.
  destruct errs as [| err errs]; [done |]. done.
Qed.

Lemma parseable_dec cfg : parseable P cfg ∨ ¬ parseable P cfg.
Proof.
  unfold parseable.
  destruct (decide (Forall (λ e, parses P (rh_APIVersion (eh_RequestHook e)) = true)
                      (status_Handlers (Status cfg)))) as [H | H].
  - left. by apply Forall_forall.
  - right. intros Habs. apply H. by apply Forall_forall.
Qed.

Lemma add_ready r cfg : ready (add P r cfg).1 = ready r.
Proof.
  destruct (parseable_dec cfg) as [Hp | Hp].
  - destruct (add_parseable cfg Hp) as (regs & _ & ->). done.
  - destruct (add_not_parseable cfg Hp) as (errs & _ & ->). done.
Qed.

Lemma add_error_iff r cfg : (add P r cfg).2 = None ↔ parseable P cfg.
Proof.
  destruct (parseable_dec cfg) as [Hp | Hp].
  - destruct (add_parseable cfg Hp) as (regs & _ & ->). done.
  - destruct (add_not_parseable cfg Hp) as (errs & _ & ->). done.
Qed.

Lemma add_error_aggregate r cfg e :
  (add P r cfg).2 = Some e → is_aggregate e = true.
Proof.
  destruct (parseable_dec cfg) as [Hp | Hp].
  - destruct (add_parseable cfg Hp) as (regs & _ & ->). done.
  - destruct (add_not_parseable cfg Hp) as (errs & Hne & ->).
    intros [= <-]. by destruct errs.
Qed.

Lemma add_keyed r cfg :
  keyed_by_name (items r) → keyed_by_name (items (add P r cfg).1).
Proof.
  intros Hk.
  assert (Hrm : keyed_by_name (items (remove r cfg))).
  { rewrite remove_items by done. by apply keyed_by_name_not_owned_by. }
  destruct (parseable_dec cfg) as [Hp | Hp].
  - destruct (add_parseable cfg Hp) as (regs & _ & ->). simpl.
    by apply keyed_by_name_stores.
  - destruct (add_not_parseable cfg Hp) as (errs & _ & ->). done.
Qed.

(** The loop of [WarmUp]: readiness is not touched, and the list of errors
    stays empty exactly when every config parses. *)
Lemma WarmUp_items_ready l r errs :
  ready (foldl (WarmUp_item P) (r, errs) l).1 = ready r.
Proof.
  revert r errs. induction l as [| cfg l IH]; intros r errs; simpl; [done |].
  pose proof (add_ready r cfg) as Hr.
  destruct (add P r cfg) as [r' [err |]]; rewrite IH; done.
Qed.

Lemma WarmUp_items_keyed l r errs :
  keyed_by_name (items r) →
  keyed_by_name (items (foldl (WarmUp_item P) (r, errs) l).1).
Proof.
  revert r errs. induction l as [| cfg l IH]; intros r errs Hk; simpl; [done |].
  pose proof (add_keyed r cfg Hk) as Hr.
  destruct (add P r cfg) as [r' [err |]]; by apply IH.
Qed.

Lemma WarmUp_items_errs l r errs :
  (foldl (WarmUp_item P) (r, errs) l).2 = [] ↔
  errs = [] ∧ ∀ cfg, cfg ∈ l → parseable P cfg.
Proof.
  revert r errs. induction l as [| cfg l IH]; intros r errs; simpl.
  - split; [intros ->; split; [done |] | by intros [-> _]].
    intros e He. by apply elem_of_nil in He.
  - pose proof (add_error_iff r cfg) as Hiff.
    destruct (add P r cfg) as [r' [err |]]; rewrite IH; simpl in Hiff.
    + split.
      * intros [Habs _]. by destruct errs.
      * intros [_ Hall]. specialize (Hall cfg (list_elem_of_here _ _)).
        by apply Hiff in Hall.
    + split.
      * intros [-> Hall]. split; [done |]. intros c Hc.
        apply elem_of_cons in Hc as [-> | Hc]; [by apply Hiff | by apply Hall].
      * intros [-> Hall]. split; [done |]. intros c Hc. apply Hall.
        by apply list_elem_of_further.
Qed.

(** Every state of a registry is keyed by name. *)
Lemma reachable_keyed r :
  reachable P r → keyed_by_name (items r).
Proof.
  induction 1 as [| r l _ IH | r cfg _ IH | r cfg _ IH].
  - apply keyed_by_name_empty.
  - unfold WarmUp. destruct l as [l |]; [| done].
    destruct (ready r); [done |].
    pose proof (WarmUp_items_keyed (Items l) r [] IH) as Hk.
    destruct (foldl _ _ _) as [r' errs]. simpl in Hk.
    case_bool_decide; simpl; [apply keyed_by_name_empty | done].
  - unfold Add. destruct cfg as [cfg |]; [| done].
    destruct (ready r); simpl; [by apply add_keyed | done].
  - unfold Remove. destruct cfg as [cfg |]; [| done].
    destruct (ready r); simpl; [| done].
    change (keyed_by_name (items (remove r cfg))).
    rewrite remove_items by done. by apply keyed_by_name_not_owned_by.
Qed.

(** A registry that is not ready holds nothing: no partial state of a
    warm-up is ever visible. *)
Lemma reachable_cold_empty r :
  reachable P r → ready r = false → items r = ∅.
Proof.
  induction 1 as [| r l _ IH | r cfg _ IH | r cfg _ IH]; [done | ..].
  - unfold WarmUp. destruct l as [l |]; [| intros ?; by apply IH].
    destruct (ready r) eqn:Hr; [simpl; congruence |].
    destruct (foldl _ _ _) as [r' errs].
    by case_bool_decide.
  - unfold Add. destruct cfg as [cfg |]; [| done].
    destruct (ready r) eqn:Hr; cbn [negb]; [| intros _; by apply IH].
    rewrite add_ready. congruence.
  - unfold Remove. destruct cfg as [cfg |]; [| done].
    destruct (ready r) eqn:Hr; cbn [negb fst]; [| intros _; by apply IH].
    rewrite remove_ready. congruence.
Qed.

End AddFacts.

Section StoreFacts.

Implicit Types m : gmap string ExtensionRegistration.

Lemma stores_snoc m regs e :
  foldl store m (regs ++ [e]) = store (foldl store m regs) e.
Proof. by rewrite foldl_snoc. Qed.

Lemma store_lookup m e k :
  store m e !! k = if decide (reg_Name e = k) then Some e else m !! k.
Proof.
  unfold store. destruct (decide (reg_Name e = k)) as [<- | Hne].
  - by rewrite lookup_insert_eq.
  - by rewrite lookup_insert_ne.
Qed.

(** A name no stored registration has keeps what the map had. *)
Lemma stores_lookup_other regs m k :
  k ∉ reg_Name <$> regs → foldl store m regs !! k = m !! k.
Proof.
  induction regs as [| e regs IH] using rev_ind; [done |].
  rewrite fmap_app, not_elem_of_app. intros [Hregs He].
  rewrite stores_snoc, store_lookup.
  rewrite decide_False; [by apply IH |].
  intros Heq. apply He. simpl. rewrite Heq. apply list_elem_of_here.
Qed.

(** Under a stored name stands one of the stored registrations, the same
    whatever the map had. *)
Lemma stores_lookup_stored regs m m' k :
  k ∈ reg_Name <$> regs →
  foldl store m regs !! k = foldl store m' regs !! k ∧
  ∃ e, e ∈ regs ∧ foldl store m regs !! k = Some e.
Proof.
  induction regs as [| e regs IH] using rev_ind.
  { intros H. by apply elem_of_nil in H. }
  rewrite fmap_app, elem_of_app. intros Hin.
  rewrite !stores_snoc, !store_lookup.
  destruct (decide (reg_Name e = k)) as [<- | Hne].
  - split; [done |]. exists e. split; [| done].
    apply elem_of_app. right. apply list_elem_of_here.
  - destruct Hin as [Hin | Hin].
    + destruct (IH Hin) as [Heq (e' & He' & Hk)]. split; [done |].
      exists e'. split; [| done]. apply elem_of_app. by left.
    + simpl in Hin. apply list_elem_of_singleton in Hin. congruence.
Qed.

(** Storing the registrations of a config again, once its own entries were
    removed, gives the same map. *)
Lemma stores_again owner regs m :
  (∀ reg, reg ∈ regs → reg_ExtensionConfigName reg = owner) →
  foldl store
    (not_owned_by owner (foldl store (not_owned_by owner m) regs)) regs =
  foldl store (not_owned_by owner m) regs.
Proof.
  intros Ho. apply map_eq. intros k.
  destruct (decide (k ∈ reg_Name <$> regs)) as [Hin | Hout].
  - by apply stores_lookup_stored.
  - rewrite !stores_lookup_other by done.
    unfold not_owned_by at 1. rewrite map_lookup_filter.
    rewrite stores_lookup_other by done.
    destruct (not_owned_by owner m !! k) as [e |] eqn:Hk; [| done].
    simpl. rewrite option_guard_True; [done |].
    unfold not_owned_by in Hk. by apply map_lookup_filter_Some in Hk as [_ ?].
Qed.

End StoreFacts.

Section WarmUpFacts.

Variable P : string → result GroupVersion.

Lemma WarmUp_cold_parseable r C :
  ready r = false →
  (∀ cfg, cfg ∈ Items C → parseable P cfg) →
  ∃ m, WarmUp P r (Some C) = ({| ready := true; items := m |}, None).
Proof.
  intros Hr Hall. unfold WarmUp. rewrite Hr.
  pose proof (WarmUp_items_errs P (Items C) r []) as Herrs.
  destruct (foldl (WarmUp_item P) (r, []) (Items C)) as [r' errs].
  simpl in Herrs. assert (errs = []) as -> by (by apply Herrs).
  by eexists.
Qed.

Lemma WarmUp_cold_not_parseable r C :
  ready r = false →
  ¬ (∀ cfg, cfg ∈ Items C → parseable P cfg) →
  ∃ errs, errs ≠ [] ∧
    WarmUp P r (Some C) =
      ({| ready := false; items := ∅ |}, Some (NewAggregate errs)).
Proof.
  intros Hr Hall. unfold WarmUp. rewrite Hr.
  pose proof (WarmUp_items_errs P (Items C) r []) as Herrs.
  pose proof (WarmUp_items_ready P (Items C) r []) as Hready.
  destruct (foldl (WarmUp_item P) (r, []) (Items C)) as [r' errs].
  simpl in Herrs, Hready. exists errs.
  destruct errs as [| err errs].
  - exfalso. apply Hall. by apply Herrs.
  - split; [done |]. simpl. by rewrite Hready, Hr.
Qed.

Lemma all_parseable_dec (l : list ExtensionConfig) :
  (∀ cfg, cfg ∈ l → parseable P cfg) ∨ ¬ (∀ cfg, cfg ∈ l → parseable P cfg).
Proof.
  induction l as [| c l IH].
  - left. intros cfg H. by apply elem_of_nil in H.
  - destruct (parseable_dec P c) as [Hc | Hc].
    + destruct IH as [IH | IH].
      * left. intros cfg H. apply elem_of_cons in H as [-> | H]; auto.
      * right. intros Habs. apply IH. intros cfg H. apply Habs.
        by apply list_elem_of_further.
    + right. intros Habs. apply Hc, Habs, list_elem_of_here.
Qed.

End WarmUpFacts.

(** * Theorems on the registry *)

Section RegistryLifecycle.

Variable P : string → result GroupVersion.

(** C1. A config list presented to a registry that is not ready: after
    [WarmUp], [IsReady] answers true exactly when every handler of every
    config has a parseable API version; when one does not parse, [WarmUp]
    returns an aggregate error, the map is empty and the registry is still
    not ready. *)
Theorem WarmUp_then_IsReady (r : extensionRegistry) (C : ExtensionConfigList) :
  ready r = false →
  (IsReady (WarmUp P r (Some C)).1 = true ↔
     ∀ cfg, cfg ∈ Items C → parseable P cfg) ∧
  ((∀ cfg, cfg ∈ Items C → parseable P cfg) →
     (WarmUp P r (Some C)).2 = None) ∧
  (¬ (∀ cfg, cfg ∈ Items C → parseable P cfg) →
     (∃ e, (WarmUp P r (Some C)).2 = Some e ∧ is_aggregate e = true) ∧
     items (WarmUp P r (Some C)).1 = ∅ ∧
     IsReady (WarmUp P r (Some C)).1 = false).
Proof.
  intros Hr.
  destruct (all_parseable_dec P (Items C)) as [Hall | Hall].
  - destruct (WarmUp_cold_parseable P r C Hr Hall) as [m ->]. simpl.
    split; [done |]. split; [done |]. by intros Habs.
  - destruct (WarmUp_cold_not_parseable P r C Hr Hall) as (errs & Hne & ->).
    simpl. split; [split; [done | by intros Habs] |].
    split; [by intros Habs |]. intros _.
    split; [| done]. eexists. split; [done |]. by destruct errs.
Qed.

(** C10. A warm-up that failed on a registry that was not ready leaves it
    not ready, so that the next [WarmUp] is not refused as an invalid
    operation, and succeeds on a list whose configs all parse. *)
Theorem WarmUp_retry (r : extensionRegistry) (l : option ExtensionConfigList)
    (C' : ExtensionConfigList) :
  ready r = false →
  is_Some (WarmUp P r l).2 →
  (∀ cfg, cfg ∈ Items C' → parseable P cfg) →
  ready (WarmUp P r l).1 = false ∧
  (is_Some l → items (WarmUp P r l).1 = ∅) ∧
  (WarmUp P (WarmUp P r l).1 (Some C')).2 = None ∧
  IsReady (WarmUp P (WarmUp P r l).1 (Some C')).1 = true ∧
  (∀ C'' e, (WarmUp P (WarmUp P r l).1 (Some C'')).2 = Some e →
            is_invalid_operation e = false).
Proof.
  intros Hr Hfail Hall.
  assert (Hcold : ready (WarmUp P r l).1 = false ∧
                  (is_Some l → items (WarmUp P r l).1 = ∅)).
  { destruct l as [C |]; [| split; [done | by intros [? ?]]].
    destruct (all_parseable_dec P (Items C)) as [HC | HC].
    - destruct (WarmUp_cold_parseable P r C Hr HC) as [m Hm].
      rewrite Hm in Hfail. by destruct Hfail.
    - by destruct (WarmUp_cold_not_parseable P r C Hr HC) as (errs & _ & ->). }
  destruct Hcold as [Hcold Hempty]. split; [done |]. split; [done |].
  destruct (WarmUp_cold_parseable P _ C' Hcold Hall) as [m ->].
  split; [done |]. split; [done |]. intros C'' e.
  destruct (all_parseable_dec P (Items C'')) as [HC | HC].
  - by destruct (WarmUp_cold_parseable P _ C'' Hcold HC) as [m' ->].
  - destruct (WarmUp_cold_not_parseable P _ C'' Hcold HC) as (errs & _ & ->).
    by intros [= <-].
Qed.

(** C5, as the code has it. The arguments are checked before the readiness:
    a nil config and an empty group or hook are refused with an argument
    error whatever the readiness. With arguments that pass this check, a
    registry that is not ready refuses [Add], [Remove], [List] and [Get]
    with an invalid-operation error, and a ready one refuses [WarmUp] with
    an invalid-operation error; a refused call leaves the registry as it
    was. *)
Theorem readiness_gate (r : extensionRegistry) :
  (ready r = false →
     (∀ cfg, ∃ e, Add P r (Some cfg) = (r, Some e) ∧
                  is_invalid_operation e = true) ∧
     (∀ cfg, ∃ e, Remove r (Some cfg) = (r, Some e) ∧
                  is_invalid_operation e = true) ∧
     (∀ gh, gh_Group gh ≠ EmptyString → gh_Hook gh ≠ EmptyString →
            ∃ e, List r gh = Err e ∧ is_invalid_operation e = true) ∧
     (∀ name, ∃ e, Get r name = Err e ∧ is_invalid_operation e = true)) ∧
  (ready r = true →
     ∀ l, ∃ e, WarmUp P r (Some l) = (r, Some e) ∧
               is_invalid_operation e = true) ∧
  ((∃ e, Add P r None = (r, Some e) ∧ is_invalid_argument e = true) ∧
   (∃ e, Remove r None = (r, Some e) ∧ is_invalid_argument e = true) ∧
   (∃ e, WarmUp P r None = (r, Some e) ∧ is_invalid_argument e = true) ∧
   (∀ gh, gh_Group gh = EmptyString ∨ gh_Hook gh = EmptyString →
          ∃ e, List r gh = Err e ∧ is_invalid_argument e = true)).
Proof.
  split; [| split].
  - intros Hr. repeat split.
    + intros cfg. unfold Add. rewrite Hr. by eexists.
    + intros cfg. unfold Remove. rewrite Hr. by eexists.
    + intros gh Hg Hh. unfold List. rewrite Hr.
      rewrite !decide_False by done. by eexists.
    + intros name. unfold Get. rewrite Hr. by eexists.
  - intros Hr l. unfold WarmUp. rewrite Hr. by eexists.
  - repeat split; try by eexists.
    intros gh Hgh. unfold List.
    destruct (decide (gh_Group gh = EmptyString)); [by eexists |].
    destruct (decide (gh_Hook gh = EmptyString)); [by eexists |].
    by destruct Hgh.
Qed.

End RegistryLifecycle.

Section ListFacts.

Implicit Types m : gmap string ExtensionRegistration.

Lemma filter_snd {A B} (Q : B → Prop) `{∀ b, Decision (Q b)}
    (l : list (A * B)) :
  filter Q l.*2 = (filter (λ kv, Q kv.2) l).*2.
Proof.
  induction l as [| [a b] l IH]; [done |].
  rewrite fmap_cons, !filter_cons. simpl.
  destruct (decide (Q b)); [rewrite fmap_cons; simpl |]; by rewrite IH.
Qed.

Lemma map_to_list_filter_perm (Q : string * ExtensionRegistration → Prop)
    `{∀ kv, Decision (Q kv)} m :
  filter Q (map_to_list m) ≡ₚ map_to_list (filter Q m).
Proof.
  apply NoDup_Permutation.
  - apply NoDup_filter, NoDup_map_to_list.
  - apply NoDup_map_to_list.
  - intros [k e]. rewrite list_elem_of_filter, !elem_of_map_to_list.
    rewrite map_lookup_filter_Some. naive_solver.
Qed.

(** The slice [List] builds holds one element for each entry of the map
    with that group and hook. *)
Lemma List_slice m gh :
  filter (λ registration,
            gvh_Group (reg_GroupVersionHook registration) = gh_Group gh ∧
            gvh_Hook (reg_GroupVersionHook registration) = gh_Hook gh)
         (map_to_list m).*2
  ≡ₚ (map_to_list (matching gh m)).*2.
Proof.
  rewrite (filter_snd (λ registration,
            gvh_Group (reg_GroupVersionHook registration) = gh_Group gh ∧
            gvh_Hook (reg_GroupVersionHook registration) = gh_Hook gh)).
  apply fmap_Permutation. unfold matching.
  apply (map_to_list_filter_perm
           (λ kv, gvh_Group (reg_GroupVersionHook kv.2) = gh_Group gh ∧
                  gvh_Hook (reg_GroupVersionHook kv.2) = gh_Hook gh)).
Qed.

Lemma elem_of_values m e :
  e ∈ (map_to_list m).*2 ↔ ∃ k, m !! k = Some e.
Proof.
  rewrite list_elem_of_fmap. split.
  - intros ([k e'] & -> & Hin). exists k. by apply elem_of_map_to_list.
  - intros [k Hk]. exists (k, e). split; [done |]. by apply elem_of_map_to_list.
Qed.

(** C6. On a ready registry, for a group and a hook that are not empty,
    [List] returns the registrations of that group and that hook, of any
    version: every one of them and nothing else, one element for each entry
    of the map. An empty group or hook is an argument error; otherwise a
    registry that is not ready is an invalid-operation error. *)
Theorem List_exact (r : extensionRegistry) (gh : GroupHook) :
  (gh_Group gh ≠ EmptyString → gh_Hook gh ≠ EmptyString → ready r = true →
     ∃ l, List r gh = Ok l ∧
          l ≡ₚ (map_to_list (matching gh (items r))).*2 ∧
          ∀ reg, reg ∈ l ↔
                 (∃ k, items r !! k = Some reg) ∧
                 gvh_Group (reg_GroupVersionHook reg) = gh_Group gh ∧
                 gvh_Hook (reg_GroupVersionHook reg) = gh_Hook gh) ∧
  (gh_Group gh = EmptyString ∨ gh_Hook gh = EmptyString →
     ∃ e, List r gh = Err e ∧ is_invalid_argument e = true) ∧
  (gh_Group gh ≠ EmptyString → gh_Hook gh ≠ EmptyString → ready r = false →
     ∃ e, List r gh = Err e ∧ is_invalid_operation e = true).
Proof.
  split; [| split].
  - intros Hg Hh Hr. unfold List. rewrite !decide_False by done. rewrite Hr.
    simpl. eexists. split; [done |]. split; [apply List_slice |].
    intros reg. rewrite list_elem_of_filter, elem_of_values. naive_solver.
  - intros Hgh. unfold List.
    destruct (decide (gh_Group gh = EmptyString)); [by eexists |].
    destruct (decide (gh_Hook gh = EmptyString)); [by eexists |].
    by destruct Hgh.
  - intros Hg Hh Hr. unfold List. rewrite !decide_False by done. rewrite Hr.
    by eexists.
Qed.

End ListFacts.

Section RegistryWrites.

Variable P : string → result GroupVersion.

(** C7. On a ready registry [Remove] of a config succeeds and deletes the
    registrations whose owner is the name of the config, and only them,
    whatever their group and hook; when the config owns nothing the
    registry is left as it was. *)
Theorem Remove_exact (r : extensionRegistry) (cfg : ExtensionConfig) :
  reachable P r →
  ready r = true →
  Remove r (Some cfg) =
    ({| ready := true; items := not_owned_by (Name cfg) (items r) |}, None) ∧
  (∀ k e, items (Remove r (Some cfg)).1 !! k = Some e ↔
          items r !! k = Some e ∧ reg_ExtensionConfigName e ≠ Name cfg) ∧
  ((∀ k e, items r !! k = Some e → reg_ExtensionConfigName e ≠ Name cfg) →
   Remove r (Some cfg) = (r, None)).
Proof.
  intros Hreach Hr.
  assert (Heq : Remove r (Some cfg) =
    ({| ready := true; items := not_owned_by (Name cfg) (items r) |}, None)).
  { unfold Remove. rewrite Hr. simpl. f_equal.
    pose proof (remove_items r cfg (reachable_keyed P r Hreach)) as Hitems.
    unfold remove in *. simpl in Hitems. by rewrite Hitems, Hr. }
  split; [done |]. rewrite Heq. simpl. split.
  - intros k e. unfold not_owned_by. by rewrite map_lookup_filter_Some.
  - intros Hnone. f_equal. destruct r as [rd m]. simpl in *. subst rd. f_equal.
    apply map_eq. intros k. unfold not_owned_by. rewrite map_lookup_filter.
    destruct (m !! k) as [e |] eqn:Hk; [| done]. simpl.
    rewrite option_guard_True; [done |]. by apply (Hnone k).
Qed.

(** C2, as the code has it. On a ready registry, [Add] of a config with a
    handler whose API version does not parse returns the aggregate of the
    parse errors and stores nothing: no registration of the config is in
    the registry afterwards, and the registrations of every other owner are
    as they were. The registrations the config owned before are deleted:
    [add] starts with [remove]. *)
Theorem Add_malformed (r : extensionRegistry) (cfg : ExtensionConfig) :
  reachable P r →
  ready r = true →
  (∃ h, h ∈ status_Handlers (Status cfg) ∧
        parses P (rh_APIVersion (eh_RequestHook h)) = false) →
  (∃ errs, errs ≠ [] ∧
     Add P r (Some cfg) =
       ({| ready := true; items := not_owned_by (Name cfg) (items r) |},
        Some (NewAggregate errs))) ∧
  (∀ k e, items (Add P r (Some cfg)).1 !! k = Some e →
          reg_ExtensionConfigName e ≠ Name cfg) ∧
  (∀ k e, reg_ExtensionConfigName e ≠ Name cfg →
          (items (Add P r (Some cfg)).1 !! k = Some e ↔
           items r !! k = Some e)) ∧
  (∀ k e, items r !! k = Some e → reg_ExtensionConfigName e = Name cfg →
          items (Add P r (Some cfg)).1 !! k = None).
Proof.
  intros Hreach Hr (h & Hh & Hparse).
  assert (Hnp : ¬ parseable P cfg).
  { intros Habs. specialize (Habs h Hh). by rewrite Hparse in Habs. }
  destruct (add_not_parseable P cfg Hnp) as (errs & Hne & Hadd).
  assert (Heq : Add P r (Some cfg) =
    ({| ready := true; items := not_owned_by (Name cfg) (items r) |},
     Some (NewAggregate errs))).
  { unfold Add. rewrite Hr. simpl. rewrite Hadd. f_equal.
    pose proof (remove_items r cfg (reachable_keyed P r Hreach)) as Hitems.
    unfold remove in *. simpl in Hitems. by rewrite Hitems, Hr. }
  split; [by exists errs |]. rewrite Heq. simpl. unfold not_owned_by.
  split; [| split].
  - intros k e. rewrite map_lookup_filter_Some. by intros [_ ?].
  - intros k e Ho. rewrite map_lookup_filter_Some. naive_solver.
  - intros k e Hk Ho. apply map_lookup_filter_None. right.
    intros e' Hk'. simpl. congruence.
Qed.

(** C8. On a ready registry, [Add] of a config whose handlers all parse,
    called a second time with the same config, succeeds and leaves the
    registry as the first call left it. *)
Theorem Add_idempotent (r : extensionRegistry) (cfg : ExtensionConfig) :
  reachable P r →
  ready r = true →
  parseable P cfg →
  (Add P r (Some cfg)).2 = None ∧
  Add P (Add P r (Some cfg)).1 (Some cfg) = ((Add P r (Some cfg)).1, None).
Proof.
  intros Hreach Hr Hp.
  destruct (add_parseable P cfg Hp) as (regs & Ho & Hadd).
  assert (Hk1 : keyed_by_name (items (Add P r (Some cfg)).1)).
  { apply (reachable_keyed P). by apply reachable_Add. }
  assert (H1 : Add P r (Some cfg) = add P r cfg).
  { unfold Add. by rewrite Hr. }
  rewrite H1 in *. rewrite (Hadd r) in *.
  set (r1 := {| ready := ready r;
                items := foldl store (items (remove r cfg)) regs |}) in *.
  split; [done |]. cbn [fst].
  assert (H2 : Add P r1 (Some cfg) = add P r1 cfg).
  { unfold Add. subst r1. cbn [ready]. by rewrite Hr. }
  rewrite H2, (Hadd r1). f_equal. subst r1. cbn [ready fst] in *. f_equal.
  rewrite (remove_items _ cfg Hk1). cbn [items].
  rewrite (remove_items r cfg (reachable_keyed P r Hreach)).
  by apply stores_again.
Qed.

End RegistryWrites.

(** * The concrete registry of the examples *)

Lemma parseable_forallb P cfg :
  forallb (λ e, parses P (rh_APIVersion (eh_RequestHook e)))
    (status_Handlers (Status cfg)) = true →
  parseable P cfg.
Proof.
  intros H e He. rewrite forallb_forall in H. apply H.
  by apply list_elem_of_In.
Qed.

Lemma all_parseable_forallb P (l : list ExtensionConfig) :
  forallb (λ cfg,
    forallb (λ e, parses P (rh_APIVersion (eh_RequestHook e)))
      (status_Handlers (Status cfg))) l = true →
  ∀ cfg, cfg ∈ l → parseable P cfg.
Proof.
  intros H cfg Hcfg. apply parseable_forallb.
  rewrite forallb_forall in H. apply H. by apply list_elem_of_In.
Qed.

Lemma reachable_warm : reachable schema_ParseGroupVersion warm.
Proof. unfold warm. apply reachable_WarmUp, reachable_New. Qed.

Lemma ready_warm : ready warm = true.
Proof. by vm_compute. Qed.

(** * The registry on the examples *)

Lemma WarmUp_then_IsReady_witness :
  ready New = false ∧
  (IsReady (WarmUp schema_ParseGroupVersion New
              (Some {| Items := [cfgA; cfgA_malformed] |})).1 = true ↔
   ∀ cfg, cfg ∈ [cfgA; cfgA_malformed] →
          parseable schema_ParseGroupVersion cfg).
Proof.
  split; [reflexivity |].
  apply (WarmUp_then_IsReady schema_ParseGroupVersion New
           {| Items := [cfgA; cfgA_malformed] |}).
  reflexivity.
Defined.

Lemma WarmUp_retry_witness :
  ready New = false ∧
  is_Some (WarmUp schema_ParseGroupVersion New
             (Some {| Items := [cfgA_malformed; cfgB] |})).2 ∧
  IsReady
    (WarmUp schema_ParseGroupVersion
       (WarmUp schema_ParseGroupVersion New
          (Some {| Items := [cfgA_malformed; cfgB] |})).1
       (Some {| Items := [cfgA; cfgB] |})).1 = true.
Proof.
  split; [reflexivity |].
  assert (Hfail : is_Some (WarmUp schema_ParseGroupVersion New
             (Some {| Items := [cfgA_malformed; cfgB] |})).2).
  { eexists. vm_compute. reflexivity. }
  split; [exact Hfail |].
  apply (WarmUp_retry schema_ParseGroupVersion New
           (Some {| Items := [cfgA_malformed; cfgB] |})
           {| Items := [cfgA; cfgB] |});
    [reflexivity | exact Hfail |].
  apply all_parseable_forallb. vm_compute. reflexivity.
Defined.

(** C5 as the claim states it fails on a nil config and on an empty group:
    a registry that is not ready refuses them with an argument error, not
    with an invalid-operation error. *)
Lemma readiness_gate_counterexample :
  ready New = false ∧
  (¬ ∃ e, (Add schema_ParseGroupVersion New None).2 = Some e ∧
          is_invalid_operation e = true) ∧
  (¬ ∃ e, List New {| gh_Group := EmptyString; gh_Hook := "BeforeScale" |}
            = Err e ∧
          is_invalid_operation e = true).
Proof.
  split; [reflexivity |]. split.
  - intros (e & He & Hop). vm_compute in He. injection He as <-.
    vm_compute in Hop. discriminate.
  - intros (e & He & Hop). vm_compute in He. injection He as <-.
    vm_compute in Hop. discriminate.
Qed.

Lemma readiness_gate_witness :
  (∃ e, Add schema_ParseGroupVersion New (Some cfgA) = (New, Some e) ∧
        is_invalid_operation e = true) ∧
  (∃ e, WarmUp schema_ParseGroupVersion warm (Some {| Items := [cfgA] |})
          = (warm, Some e) ∧
        is_invalid_operation e = true).
Proof.
  split.
  - apply (readiness_gate schema_ParseGroupVersion New). reflexivity.
  - apply (readiness_gate schema_ParseGroupVersion warm). apply ready_warm.
Defined.

Lemma List_exact_witness :
  ready warm = true ∧
  ∃ l, List warm {| gh_Group := "g"; gh_Hook := "BeforeScale" |} = Ok l ∧
       reg_Name <$> l ≡ₚ ["h1"; "h3"].
Proof.
  split; [apply ready_warm |].
  destruct (List_exact warm {| gh_Group := "g"; gh_Hook := "BeforeScale" |})
    as [Hlist _].
  destruct Hlist as (l & Hl & Hperm & _);
    [discriminate | discriminate | apply ready_warm |].
  exists l. split; [exact Hl |].
  rewrite Hperm. vm_compute. apply perm_swap.
Defined.

Lemma Remove_exact_witness :
  reachable schema_ParseGroupVersion warm ∧ ready warm = true ∧
  Remove warm (Some cfgB) =
    ({| ready := true; items := not_owned_by "B" (items warm) |}, None) ∧
  Remove warm (Some cfgC) = (warm, None).
Proof.
  split; [apply reachable_warm |]. split; [apply ready_warm |].
  destruct (Remove_exact schema_ParseGroupVersion warm cfgB
              reachable_warm ready_warm) as (HB & _ & _).
  destruct (Remove_exact schema_ParseGroupVersion warm cfgC
              reachable_warm ready_warm) as (_ & _ & HC).
  split; [exact HB |]. apply HC.
  intros k e Hk.
  assert (Hin : (k, e) ∈ map_to_list (items warm))
    by (by apply elem_of_map_to_list).
  vm_compute in Hin.
  repeat (apply elem_of_cons in Hin as [Hin | Hin];
          [injection Hin as -> ->; discriminate |]).
  by apply elem_of_nil in Hin.
Defined.

(** C2 as the claim states it fails: [Add] of a config with a malformed
    handler deletes the registration the config owned before. *)
Lemma Add_malformed_counterexample :
  reachable schema_ParseGroupVersion warm ∧ ready warm = true ∧
  (∃ h, h ∈ status_Handlers (Status cfgA_malformed) ∧
        parses schema_ParseGroupVersion
          (rh_APIVersion (eh_RequestHook h)) = false) ∧
  is_Some (Add schema_ParseGroupVersion warm (Some cfgA_malformed)).2 ∧
  (∃ e, items warm !! "h1" = Some e ∧
        reg_ExtensionConfigName e = Name cfgA_malformed) ∧
  items (Add schema_ParseGroupVersion warm (Some cfgA_malformed)).1 !! "h1"
    = None ∧
  items (Add schema_ParseGroupVersion warm (Some cfgA_malformed)).1
    ≠ items warm.
Proof.
  split; [apply reachable_warm |]. split; [apply ready_warm |].
  split.
  { exists (handler "h4" "a/b/c" "BeforeScale"). split; [| by vm_compute].
    unfold cfgA_malformed. simpl. apply list_elem_of_further, list_elem_of_here. }
  split; [eexists; vm_compute; reflexivity |].
  split; [eexists; split; vm_compute; reflexivity |].
  assert (Hgone : items (Add schema_ParseGroupVersion warm
                           (Some cfgA_malformed)).1 !! "h1" = None)
    by (by vm_compute).
  split; [exact Hgone |].
  intros Heq. rewrite Heq in Hgone. vm_compute in Hgone. discriminate.
Qed.

Lemma Add_malformed_witness :
  reachable schema_ParseGroupVersion warm ∧ ready warm = true ∧
  ∃ errs, errs ≠ [] ∧
    Add schema_ParseGroupVersion warm (Some cfgA_malformed) =
      ({| ready := true; items := not_owned_by "A" (items warm) |},
       Some (NewAggregate errs)).
Proof.
  split; [apply reachable_warm |]. split; [apply ready_warm |].
  apply (Add_malformed schema_ParseGroupVersion warm cfgA_malformed
           reachable_warm ready_warm).
  exists (handler "h4" "a/b/c" "BeforeScale"). split; [| by vm_compute].
  unfold cfgA_malformed. simpl. apply list_elem_of_further, list_elem_of_here.
Defined.

Lemma Add_idempotent_witness :
  reachable schema_ParseGroupVersion warm ∧ ready warm = true ∧
  parseable schema_ParseGroupVersion cfgA ∧
  Add schema_ParseGroupVersion
    (Add schema_ParseGroupVersion warm (Some cfgA)).1 (Some cfgA) =
  ((Add schema_ParseGroupVersion warm (Some cfgA)).1, None).
Proof.
  assert (Hp : parseable schema_ParseGroupVersion cfgA)
    by (apply parseable_forallb; vm_compute; reflexivity).
  split; [apply reachable_warm |]. split; [apply ready_warm |].
  split; [exact Hp |].
  apply (Add_idempotent schema_ParseGroupVersion warm cfgA
           reachable_warm ready_warm Hp).
Defined.

(** * Theorems on the reconciler *)

Lemma FindStatusCondition_set conds c :
  FindStatusCondition (setStatusCondition conds c) (cond_Type c) = Some c.
Proof.
  unfold FindStatusCondition.
  induction conds as [| x conds IH]; simpl.
  - by rewrite bool_decide_eq_true_2.
  - destruct (decide (cond_Type x = cond_Type c)) as [Heq | Hne]; simpl.
    + by rewrite bool_decide_eq_true_2.
    + by rewrite bool_decide_eq_false_2.
Qed.

(** Membership of a call in an explicit trace. *)
Ltac trace_mem H :=
  repeat (rewrite ?elem_of_app, ?elem_of_cons, ?elem_of_nil in H);
  repeat match type of H with
         | _ ∨ _ => destruct H as [H | H]
         | False => destruct H
         | @eq Call _ _ => try discriminate H; try (injection H as H)
         end.

Section ReconcilerCycle.

Variable P : string → result GroupVersion.
Variable κ : Collaborators.

(** What the CA-bundle step does to the world and to the object. *)
Lemma reconcileCABundle_effect w config w1 res :
  reconcileCABundle κ w config = (w1, res) →
  registry w1 = registry w ∧
  (calls w1 = calls w ∨ ∃ key, calls w1 = calls w ++ [CallGetSecret key]) ∧
  ∀ config1, res = Ok config1 →
    Status config1 = Status config ∧ Name config1 = Name config.
Proof.
  unfold reconcileCABundle. intros H.
  destruct (Annotations config !! InjectCAFromSecretAnnotation) as [raw |].
  2:{ injection H as <- <-. split; [done |]. split; [by left |].
      by intros ? [= <-]. }
  destruct (bool_decide _ || bool_decide _).
  { injection H as <- <-. split; [done |]. split; [by left |]. by intros ? [=]. }
  destruct (client_GetSecret κ (splitNamespacedName raw)) as [secret | err].
  2:{ injection H as <- <-. split; [done |]. split; [right; by eexists |].
      by intros ? [=]. }
  destruct (Data secret !! tlsCAKey) as [caData |]; injection H as <- <-.
  - split; [done |]. split; [right; by eexists |]. by intros ? [= <-].
  - split; [done |]. split; [right; by eexists |]. by intros ? [=].
Qed.

(** C9. A request that arrives while the registry is not ready is requeued
    without an error: the only call of the cycle is the readiness query, no
    object is fetched, nothing is discovered or patched, and the registry
    is as it was. *)
Theorem Reconcile_not_ready (r : extensionRegistry) (req : Request) :
  ready r = false →
  Reconcile P κ (start r) req =
    ({| registry := r; calls := [CallIsReady] |},
     ({| Requeue := true |}, None)).
Proof.
  intros Hr. unfold Reconcile, RuntimeClient_IsReady, IsReady. simpl.
  by rewrite Hr.
Qed.

(** C4. A cycle whose discovery call fails: the patch is attempted, with an
    object whose Discovered condition is false with a message that holds
    the error, and whose handler list is the one of the object as it was
    fetched; the register step is not called and the registry is as it was;
    the cycle returns an aggregate error that starts with the discovery
    error, on which the request is retried. *)
Theorem Reconcile_discovery_fails (r : extensionRegistry) (req : Request)
    (w' : World) (res : Result) (rerr : option error)
    (obj : ExtensionConfig) (err : error) :
  Reconcile P κ (start r) req = (w', (res, rerr)) →
  CallDiscover obj ∈ calls w' →
  Discover κ obj = Err err →
  ∃ original modified,
    client_Get κ (req_NamespacedName req) = Ok original ∧
    CallPatch original modified ∈ calls w' ∧
    FindStatusCondition (status_Conditions (Status modified))
        ExtensionConfigDiscoveredCondition =
      Some {| cond_Type := ExtensionConfigDiscoveredCondition;
              cond_Status := ConditionFalse;
              cond_Reason := ExtensionConfigNotDiscoveredReason;
              cond_Message := "Error in discovery: " +:+ Error err |} ∧
    status_Handlers (Status modified) = status_Handlers (Status original) ∧
    (∀ c, c ∈ calls w' → is_register c = false) ∧
    registry w' = r ∧
    res = {| Requeue := false |} ∧
    ∃ errs, rerr = Some (NewAggregate
      (errors_Wrap err ("failed to discover ExtensionConfig " +:+ KObj obj)
       :: errs)).
Proof.
  intros Hrun Hin Hd. unfold Reconcile, RuntimeClient_IsReady, IsReady in Hrun.
  cbn [start registry] in Hrun.
  destruct (ready r) eqn:Hr; cbn [negb] in Hrun.
  2:{ injection Hrun as <- <- <-. cbn in Hin. trace_mem Hin. }
  destruct (client_Get κ (req_NamespacedName req)) as [original | gerr] eqn:Hget.
  2:{ destruct (IsNotFound κ gerr).
      - unfold reconcileDelete, RuntimeClient_Unregister, Remove in Hrun.
        cbn in Hrun. rewrite Hr in Hrun. cbn in Hrun.
        injection Hrun as <- <- <-. cbn in Hin. trace_mem Hin.
      - injection Hrun as <- <- <-. cbn in Hin. trace_mem Hin. }
  destruct (EnsurePausedCondition κ original)
    as [[[conds isPaused] requeue] perr].
  destruct (bool_decide (is_Some perr) || isPaused || requeue).
  { injection Hrun as <- <- <-. cbn in Hin. trace_mem Hin. }
  destruct (negb (IsZero _)).
  { unfold reconcileDelete, RuntimeClient_Unregister, Remove in Hrun.
    cbn in Hrun. rewrite Hr in Hrun. cbn in Hrun.
    injection Hrun as <- <- <-. cbn in Hin. trace_mem Hin. }
  destruct (reconcileCABundle κ _ (with_Conditions original conds))
    as [w1 [config1 | caerr]] eqn:HCA;
    apply reconcileCABundle_effect in HCA as (Hreg & Hcalls & Hobj).
  2:{ injection Hrun as <- <- <-.
      destruct Hcalls as [Hcalls | [key Hcalls]]; rewrite Hcalls in Hin;
        cbn in Hin; trace_mem Hin. }
  destruct (Hobj config1 eq_refl) as [Hstatus Hname].
  unfold discoverExtensionConfig, patchExtensionConfig in Hrun.
  destruct (Discover κ config1) as [discovered | derr] eqn:Hdisc;
    cbn [append_err] in Hrun.
  - destruct (patchHelper_Patch κ original _) as [patched [perr' |]];
      cbn in Hrun.
    + injection Hrun as <- <- <-. cbn in Hin.
      destruct Hcalls as [Hcalls | [key Hcalls]]; rewrite Hcalls in Hin;
        cbn in Hin; trace_mem Hin; congruence.
    + unfold RuntimeClient_Register in Hrun. cbn -[Add] in Hrun.
      match type of Hrun with
      | context [Add P ?a ?b] => destruct (Add P a b) as [r' [rgerr |]]
      end;
        injection Hrun as <- <- <-; cbn in Hin;
        destruct Hcalls as [Hcalls | [key Hcalls]]; rewrite Hcalls in Hin;
        cbn in Hin; trace_mem Hin; congruence.
  - destruct (patchHelper_Patch κ original _) as [patched perr'] eqn:Hpatch.
    assert (Hobj' : obj = config1).
    { destruct perr'; cbn in Hrun; injection Hrun as <- <- <-; cbn in Hin;
        destruct Hcalls as [Hcalls | [key Hcalls]]; rewrite Hcalls in Hin;
        cbn in Hin; trace_mem Hin; congruence. }
    subst obj. rewrite Hdisc in Hd. injection Hd as ->.
    eexists original, _. split; [done |].
    assert (Hout : w' = call (call w1 (CallDiscover config1))
                     (CallPatch original
                        (conditions_Set
                           (v1beta1conditions_MarkFalse config1
                              RuntimeExtensionDiscoveredV1Beta1Condition
                              DiscoveryFailedV1Beta1Reason
                              ConditionSeverityError
                              ("Error in discovery: " +:+ Error err))
                           {| cond_Type := ExtensionConfigDiscoveredCondition;
                              cond_Status := ConditionFalse;
                              cond_Reason := ExtensionConfigNotDiscoveredReason;
                              cond_Message :=
                                "Error in discovery: " +:+ Error err |})) ∧
                   res = {| Requeue := false |} ∧
                   ∃ errs, rerr = Some (NewAggregate
                     (errors_Wrap err
                        ("failed to discover ExtensionConfig " +:+ KObj config1)
                      :: errs))).
    { destruct perr'; cbn in Hrun; injection Hrun as <- <- <-;
        (split; [done |]); (split; [done |]); by eexists. }
    destruct Hout as (-> & -> & Herrs).
    split; [cbn; apply elem_of_app; right; apply list_elem_of_here |].
    split; [apply (FindStatusCondition_set _
                     {| cond_Type := ExtensionConfigDiscoveredCondition |}) |].
    split; [cbn; by rewrite Hstatus |].
    split; [| split; [cbn; by rewrite Hreg | done]].
    intros c Hc. cbn in Hc.
    destruct Hcalls as [Hcalls | [key Hcalls]]; rewrite Hcalls in Hc;
      cbn in Hc; trace_mem Hc; by subst c.
Qed.

(** C3, as the code has it. A cycle that reads a secret which exists but
    has no CA entry stops at the CA-bundle step: it returns the error that
    names the missing key, the registry is as it was, and nothing is
    discovered, patched, registered or unregistered, so that no condition
    of the object is written. *)
Theorem Reconcile_secret_without_CA (r : extensionRegistry) (req : Request)
    (w' : World) (res : Result) (rerr : option error)
    (key : NamespacedName) (secret : Secret) :
  Reconcile P κ (start r) req = (w', (res, rerr)) →
  CallGetSecret key ∈ calls w' →
  client_GetSecret κ key = Ok secret →
  Data secret !! tlsCAKey = None →
  (∃ original secretNameRaw,
     client_Get κ (req_NamespacedName req) = Ok original ∧
     Annotations original !! InjectCAFromSecretAnnotation
       = Some secretNameRaw ∧
     key = splitNamespacedName secretNameRaw ∧
     rerr = Some (errors_New
       ("failed to reconcile caBundle: secret " +:+ secretNameRaw +:+
        " does not contain a " +:+ quote tlsCAKey +:+ " entry"))) ∧
  res = {| Requeue := false |} ∧
  registry w' = r ∧
  ∀ c, c ∈ calls w' →
       is_discover c = false ∧ is_patch c = false ∧
       is_register c = false ∧ is_unregister c = false.
Proof.
  intros Hrun Hin Hsecret Hdata.
  unfold Reconcile, RuntimeClient_IsReady, IsReady in Hrun.
  cbn [start registry] in Hrun.
  destruct (ready r) eqn:Hr; cbn [negb] in Hrun.
  2:{ injection Hrun as <- <- <-. cbn in Hin. trace_mem Hin. }
  destruct (client_Get κ (req_NamespacedName req)) as [original | gerr] eqn:Hget.
  2:{ destruct (IsNotFound κ gerr).
      - unfold reconcileDelete, RuntimeClient_Unregister, Remove in Hrun.
        cbn in Hrun. rewrite Hr in Hrun. cbn in Hrun.
        injection Hrun as <- <- <-. cbn in Hin. trace_mem Hin.
      - injection Hrun as <- <- <-. cbn in Hin. trace_mem Hin. }
  destruct (EnsurePausedCondition κ original)
    as [[[conds isPaused] requeue] perr].
  destruct (bool_decide (is_Some perr) || isPaused || requeue).
  { injection Hrun as <- <- <-. cbn in Hin. trace_mem Hin. }
  destruct (negb (IsZero _)).
  { unfold reconcileDelete, RuntimeClient_Unregister, Remove in Hrun.
    cbn in Hrun. rewrite Hr in Hrun. cbn in Hrun.
    injection Hrun as <- <- <-. cbn in Hin. trace_mem Hin. }
  unfold reconcileCABundle in Hrun.
  cbn [with_Conditions with_Status Annotations] in Hrun.
  destruct (Annotations original !! InjectCAFromSecretAnnotation)
    as [raw |] eqn:Hann.
  2:{ unfold discoverExtensionConfig, patchExtensionConfig,
        RuntimeClient_Register in Hrun.
      destruct (Discover κ _); destruct (patchHelper_Patch κ original _)
        as [patched [perr' |]]; cbn -[Add] in Hrun;
        try (match type of Hrun with
             | context [Add P ?a ?b] => destruct (Add P a b) as [r' [rgerr |]]
             end);
        injection Hrun as <- <- <-; cbn in Hin; trace_mem Hin. }
  destruct (bool_decide _ || bool_decide _).
  { injection Hrun as <- <- <-. cbn in Hin. trace_mem Hin. }
  destruct (client_GetSecret κ (splitNamespacedName raw))
    as [secret' | serr] eqn:Hsec.
  2:{ injection Hrun as <- <- <-. cbn in Hin. trace_mem Hin.
      subst key. congruence. }
  destruct (Data secret' !! tlsCAKey) as [caData |] eqn:Hca.
  { unfold discoverExtensionConfig, patchExtensionConfig,
      RuntimeClient_Register in Hrun.
    assert (Hkey : key = splitNamespacedName raw).
    { destruct (Discover κ _); destruct (patchHelper_Patch κ original _)
        as [patched [perr' |]]; cbn -[Add] in Hrun;
        try (match type of Hrun with
             | context [Add P ?a ?b] => destruct (Add P a b) as [r' [rgerr |]]
             end);
        injection Hrun as <- <- <-; cbn in Hin; trace_mem Hin; done. }
    subst key. congruence. }
  injection Hrun as <- <- <-. cbn in Hin. trace_mem Hin. subst key.
  split; [by exists original, raw |]. split; [done |]. split; [done |].
  intros c Hc. cbn in Hc. trace_mem Hc; by subst c.
Qed.

End ReconcilerCycle.

(** * The reconciler on the examples *)

Lemma surjective_pairing_3 {A B C} (x : A * (B * C)) :
  x = (x.1, (x.2.1, x.2.2)).
Proof. by destruct x as [a [b c]]. Qed.

(** The scenario of the specification, on [warm]: the handlers of group g
    for BeforeScale are h1 and h3, of two versions, and h2 is a registration
    of B. *)
Example Get_h2 :
  reg_ExtensionConfigName <$> result_option (Get warm "h2") = Some "B".
Proof. by vm_compute. Qed.

Example Get_unknown :
  Error <$> result_error (Get warm "h9") =
  Some ("RuntimeExtension with name " +:+ quote "h9" +:+
        " has not been registered").
Proof. by vm_compute. Qed.

Example Add_malformed_message :
  Error <$> (Add schema_ParseGroupVersion warm (Some cfgA_malformed)).2 =
  Some ("failed to parse GroupVersion " +:+ quote "a/b/c" +:+
        ": unexpected GroupVersion string: a/b/c").
Proof. by vm_compute. Qed.

Lemma Reconcile_not_ready_witness :
  ready New = false ∧
  Reconcile schema_ParseGroupVersion
    (collaborators cfgA (Ok secret_without_CA) (Ok cfgA))
    (start New) (request "A") =
  ({| registry := New; calls := [CallIsReady] |},
   ({| Requeue := true |}, None)).
Proof.
  split; [reflexivity |].
  apply (Reconcile_not_ready schema_ParseGroupVersion
           (collaborators cfgA (Ok secret_without_CA) (Ok cfgA))
           New (request "A")).
  reflexivity.
Defined.

(** C3 as the claim states it fails: with a secret that has no CA entry the
    cycle ends before the discovery, and no patch is attempted, so that the
    Discovered condition is not written. *)
Lemma Reconcile_secret_without_CA_counterexample :
  Annotations cfgS !! InjectCAFromSecretAnnotation = Some "ns/ca-secret" ∧
  Data secret_without_CA !! tlsCAKey = None ∧
  calls (Reconcile schema_ParseGroupVersion
           (collaborators cfgS (Ok secret_without_CA) (Ok cfgS))
           (start warm) (request "S")).1 =
    [CallIsReady;
     CallGet {| nn_Namespace := EmptyString; nn_Name := "S" |};
     CallEnsurePausedCondition cfgS;
     CallGetSecret {| nn_Namespace := "ns"; nn_Name := "ca-secret" |}] ∧
  existsb is_patch
    (calls (Reconcile schema_ParseGroupVersion
              (collaborators cfgS (Ok secret_without_CA) (Ok cfgS))
              (start warm) (request "S")).1) = false.
Proof.
  split; [by vm_compute |]. split; [by vm_compute |].
  split; by vm_compute.
Qed.

Lemma Reconcile_secret_without_CA_witness :
  CallGetSecret {| nn_Namespace := "ns"; nn_Name := "ca-secret" |} ∈
    calls (Reconcile schema_ParseGroupVersion
             (collaborators cfgS (Ok secret_without_CA) (Ok cfgS))
             (start warm) (request "S")).1 ∧
  Data secret_without_CA !! tlsCAKey = None ∧
  registry (Reconcile schema_ParseGroupVersion
              (collaborators cfgS (Ok secret_without_CA) (Ok cfgS))
              (start warm) (request "S")).1 = warm.
Proof.
  assert (Hin : CallGetSecret {| nn_Namespace := "ns"; nn_Name := "ca-secret" |} ∈
    calls (Reconcile schema_ParseGroupVersion
             (collaborators cfgS (Ok secret_without_CA) (Ok cfgS))
             (start warm) (request "S")).1).
  { vm_compute. do 3 apply list_elem_of_further. apply list_elem_of_here. }
  assert (Hdata : Data secret_without_CA !! tlsCAKey = None)
    by (vm_compute; reflexivity).
  split; [exact Hin |]. split; [exact Hdata |].
  apply (Reconcile_secret_without_CA schema_ParseGroupVersion
           (collaborators cfgS (Ok secret_without_CA) (Ok cfgS))
           warm (request "S") _ _ _
           {| nn_Namespace := "ns"; nn_Name := "ca-secret" |}
           secret_without_CA
           (surjective_pairing_3 _) Hin eq_refl Hdata).
Defined.

Lemma Reconcile_discovery_fails_witness :
  CallDiscover cfgA ∈
    calls (Reconcile schema_ParseGroupVersion
             (collaborators cfgA (Ok secret_without_CA)
                (Err (errors_New "connection refused")))
             (start warm) (request "A")).1 ∧
  registry (Reconcile schema_ParseGroupVersion
              (collaborators cfgA (Ok secret_without_CA)
                 (Err (errors_New "connection refused")))
              (start warm) (request "A")).1 = warm ∧
  ∃ modified,
    CallPatch cfgA modified ∈
      calls (Reconcile schema_ParseGroupVersion
               (collaborators cfgA (Ok secret_without_CA)
                  (Err (errors_New "connection refused")))
               (start warm) (request "A")).1 ∧
    cond_Message <$>
      FindStatusCondition (status_Conditions (Status modified))
        ExtensionConfigDiscoveredCondition
    = Some "Error in discovery: connection refused".
Proof.
  assert (Hin : CallDiscover cfgA ∈
    calls (Reconcile schema_ParseGroupVersion
             (collaborators cfgA (Ok secret_without_CA)
                (Err (errors_New "connection refused")))
             (start warm) (request "A")).1).
  { vm_compute. do 3 apply list_elem_of_further. apply list_elem_of_here. }
  split; [exact Hin |].
  destruct (Reconcile_discovery_fails schema_ParseGroupVersion
              (collaborators cfgA (Ok secret_without_CA)
                 (Err (errors_New "connection refused")))
              warm (request "A") _ _ _ cfgA
              (errors_New "connection refused")
              (surjective_pairing_3 _) Hin eq_refl)
    as (original & modified & Hget & Hpatch & Hcond & _ & _ & Hreg & _).
  split; [exact Hreg |].
  injection Hget as <-. exists modified. split; [exact Hpatch |].
  rewrite Hcond. reflexivity.
Defined.

(** * Further properties of the registry *)

Section ContentFacts.

Variable P : string → result GroupVersion.
Implicit Types m : gmap string ExtensionRegistration.

(** The loop of [add] over the handlers, as two lists. *)
Lemma add_handlers_fold cfg hs regs errs :
  foldl (add_handler P cfg) (regs, errs) hs =
  (regs ++ omap (registration_for P cfg) hs,
   errs ++ omap (parse_error_for P) hs).
Proof.
  revert regs errs. induction hs as [| h hs IH]; intros regs errs;
    cbn [foldl].
  - simpl. by rewrite !app_nil_r.
  - destruct (add_handler P cfg (regs, errs) h) as [regs' errs'] eqn:Hstep.
    rewrite IH. unfold add_handler in Hstep. simpl.
    unfold registration_for at 2, parse_error_for at 2.
    destruct (P (rh_APIVersion (eh_RequestHook h))) as [gv | err];
      injection Hstep as <- <-; simpl; by rewrite <- ?app_assoc.
Qed.

Lemma add_eq r cfg :
  add P r cfg =
  match omap (parse_error_for P) (status_Handlers (Status cfg)) with
  | [] =>
      ({| ready := ready r;
          items := foldl store (items (remove r cfg))
                     (omap (registration_for P cfg)
                        (status_Handlers (Status cfg))) |}, None)
  | errs => (remove r cfg, Some (NewAggregate errs))
  end.
Proof.
  unfold add. rewrite add_handlers_fold. simpl.
  by destruct (omap (parse_error_for P) (status_Handlers (Status cfg))).
Qed.

Lemma add_error r cfg : (add P r cfg).2 = config_error P cfg.
Proof.
  rewrite add_eq. unfold config_error.
  by destruct (omap (parse_error_for P) (status_Handlers (Status cfg))).
Qed.

Lemma parseable_no_error cfg :
  parseable P cfg ↔
  omap (parse_error_for P) (status_Handlers (Status cfg)) = [].
Proof.
  unfold parseable. induction (status_Handlers (Status cfg)) as [| h hs IH].
  - split; [done |]. intros _ e He. by apply elem_of_nil in He.
  - simpl. unfold parse_error_for at 1. unfold parses in *.
    destruct (P (rh_APIVersion (eh_RequestHook h))) as [gv | err] eqn:Hp.
    + rewrite <- IH. split.
      * intros Hall e He. apply Hall. by apply list_elem_of_further.
      * intros Hall e He. apply elem_of_cons in He as [-> | He];
          [by rewrite Hp | by apply Hall].
    + split; [| done]. intros Hall.
      specialize (Hall h (list_elem_of_here _ _)). by rewrite Hp in Hall.
Qed.

Lemma add_parseable_eq r cfg :
  parseable P cfg →
  add P r cfg =
  ({| ready := ready r;
      items := foldl store (items (remove r cfg))
                 (omap (registration_for P cfg)
                    (status_Handlers (Status cfg))) |}, None).
Proof.
  intros Hp. rewrite add_eq. by rewrite (proj1 (parseable_no_error cfg) Hp).
Qed.

Lemma registration_for_name cfg h reg :
  registration_for P cfg h = Some reg →
  reg_Name reg = eh_Name h ∧ reg_ExtensionConfigName reg = Name cfg.
Proof.
  unfold registration_for.
  destruct (P (rh_APIVersion (eh_RequestHook h))); [| done].
  by intros [= <-].
Qed.

Lemma registration_names cfg (hs : list ExtensionHandler) (k : string) :
  k ∈ reg_Name <$> omap (registration_for P cfg) hs → k ∈ eh_Name <$> hs.
Proof.
  rewrite !list_elem_of_fmap. intros (reg & -> & Hreg).
  apply list_elem_of_omap in Hreg as (h & Hh & Hreg).
  exists h. split; [| done]. by apply registration_for_name in Hreg as [-> _].
Qed.

Lemma registrations_owned cfg (hs : list ExtensionHandler) :
  owned_by_config cfg (omap (registration_for P cfg) hs).
Proof.
  intros reg Hreg. apply list_elem_of_omap in Hreg as (h & _ & Hreg).
  by apply registration_for_name in Hreg as [_ ?].
Qed.

(** The last handler of a name is the one that stays under the name. *)
Lemma add_lookup_declared r cfg pre h post gv :
  parseable P cfg →
  status_Handlers (Status cfg) = pre ++ h :: post →
  eh_Name h ∉ eh_Name <$> post →
  P (rh_APIVersion (eh_RequestHook h)) = Ok gv →
  items (add P r cfg).1 !! eh_Name h = Some (registration_of cfg h gv).
Proof.
  intros Hp Hsplit Hlast Hgv. rewrite add_parseable_eq by done. simpl.
  rewrite Hsplit, omap_app. simpl. unfold registration_for at 2.
  rewrite Hgv. rewrite foldl_app. simpl.
  rewrite stores_lookup_other.
  - by rewrite store_lookup, decide_True.
  - intros Hin. by apply Hlast, (registration_names cfg).
Qed.

(** Under a name the config does not declare stands what [remove] left. *)
Lemma add_lookup_other r cfg k :
  keyed_by_name (items r) →
  parseable P cfg →
  k ∉ handler_names cfg →
  items (add P r cfg).1 !! k = not_owned_by (Name cfg) (items r) !! k.
Proof.
  intros Hk Hp Hout. rewrite add_parseable_eq by done. simpl.
  rewrite stores_lookup_other.
  - by rewrite <- (remove_items r cfg Hk).
  - intros Hin. by apply Hout, (registration_names cfg).
Qed.

Lemma Add_ready_eq r cfg :
  ready r = true → Add P r (Some cfg) = add P r cfg.
Proof. intros Hr. unfold Add. by rewrite Hr. Qed.

End ContentFacts.

Section WarmUpContentFacts.

Variable P : string → result GroupVersion.

Lemma WarmUp_item_fst r errs c :
  (WarmUp_item P (r, errs) c).1 = (add P r c).1.
Proof. unfold WarmUp_item. by destruct (add P r c) as [r' [e |]]. Qed.

Lemma WarmUp_item_snd r errs c :
  (WarmUp_item P (r, errs) c).2 = errs ++ option_list (config_error P c).
Proof.
  unfold WarmUp_item. rewrite <- (add_error P r c).
  destruct (add P r c) as [r' [e |]]; simpl; [done | by rewrite app_nil_r].
Qed.

(** The errors of the loop of [WarmUp]: the error of each config, in the
    order of the list. *)
Lemma WarmUp_items_errors l r errs :
  (foldl (WarmUp_item P) (r, errs) l).2 = errs ++ omap (config_error P) l.
Proof.
  revert r errs. induction l as [| c l IH]; intros r errs; cbn [foldl].
  - simpl. by rewrite app_nil_r.
  - destruct (WarmUp_item P (r, errs) c) as [r1 errs1] eqn:Hstep.
    rewrite IH. pose proof (WarmUp_item_snd r errs c) as Hsnd.
    rewrite Hstep in Hsnd. simpl in Hsnd. subst errs1. simpl.
    destruct (config_error P c); simpl; by rewrite <- ?app_assoc, ?app_nil_r.
Qed.

(** A registration stays through the loop of [WarmUp] when no later config
    has the name of its owner or declares its name. *)
Lemma WarmUp_items_preserved l r errs k reg :
  keyed_by_name (items r) →
  (∀ c, c ∈ l → parseable P c) →
  items r !! k = Some reg →
  (∀ c, c ∈ l → Name c ≠ reg_ExtensionConfigName reg) →
  (∀ c, c ∈ l → k ∉ handler_names c) →
  items (foldl (WarmUp_item P) (r, errs) l).1 !! k = Some reg.
Proof.
  revert r errs. induction l as [| c l IH]; intros r errs Hk Hp Hreg Ho Hn;
    cbn [foldl]; [done |].
  destruct (WarmUp_item P (r, errs) c) as [r1 errs1] eqn:Hstep.
  pose proof (WarmUp_item_fst r errs c) as Hfst.
  rewrite Hstep in Hfst. simpl in Hfst. subst r1.
  apply IH.
  - by apply add_keyed.
  - intros c' Hc'. apply Hp. by apply list_elem_of_further.
  - rewrite add_lookup_other; [| done | apply Hp, list_elem_of_here
                                 | apply Hn, list_elem_of_here].
    unfold not_owned_by. apply map_lookup_filter_Some. split; [done |].
    simpl. intros Heq. by apply (Ho c (list_elem_of_here _ _)).
  - intros c' Hc'. apply Ho. by apply list_elem_of_further.
  - intros c' Hc'. apply Hn. by apply list_elem_of_further.
Qed.

Lemma split_last_of_name (hs : list ExtensionHandler) h :
  NoDup (eh_Name <$> hs) → h ∈ hs →
  ∃ pre post, hs = pre ++ h :: post ∧ eh_Name h ∉ eh_Name <$> post.
Proof.
  intros Hnd Hin. apply list_elem_of_split in Hin as (pre & post & ->).
  exists pre, post. split; [done |].
  rewrite fmap_app, fmap_cons in Hnd.
  apply NoDup_app in Hnd as (_ & _ & Hnd). by apply NoDup_cons in Hnd as [? _].
Qed.

(** Every handler of every config of the list is in the registry after
    the loop of [WarmUp], when the configs have different names and declare
    different handler names. *)
Lemma WarmUp_items_declared l r errs cfg h gv :
  keyed_by_name (items r) →
  (∀ c, c ∈ l → parseable P c) →
  NoDup (Name <$> l) →
  NoDup (l ≫= handler_names) →
  cfg ∈ l → h ∈ status_Handlers (Status cfg) →
  P (rh_APIVersion (eh_RequestHook h)) = Ok gv →
  items (foldl (WarmUp_item P) (r, errs) l).1 !! eh_Name h
    = Some (registration_of cfg h gv).
Proof.
  revert r errs. induction l as [| c l IH];
    intros r errs Hk Hp Hnames Hhandlers Hcfg Hh Hgv; cbn [foldl].
  { by apply elem_of_nil in Hcfg. }
  rewrite fmap_cons in Hnames. apply NoDup_cons in Hnames as [Hc Hnames].
  rewrite bind_cons in Hhandlers.
  apply NoDup_app in Hhandlers as (Hhc & Hdisj & Hhandlers).
  destruct (WarmUp_item P (r, errs) c) as [r1 errs1] eqn:Hstep.
  pose proof (WarmUp_item_fst r errs c) as Hfst.
  rewrite Hstep in Hfst. simpl in Hfst. subst r1.
  assert (Hpl : ∀ c', c' ∈ l → parseable P c').
  { intros c' Hc'. apply Hp. by apply list_elem_of_further. }
  apply elem_of_cons in Hcfg as [-> | Hcfg].
  2:{ apply IH; try done. by apply add_keyed. }
  destruct (split_last_of_name _ h Hhc Hh) as (pre & post & Hsplit & Hlast).
  apply WarmUp_items_preserved.
  - by apply add_keyed.
  - done.
  - apply (add_lookup_declared P r c pre h post gv); try done.
    apply Hp, list_elem_of_here.
  - intros c' Hc'. simpl. intros Heq. apply Hc.
    apply list_elem_of_fmap. by exists c'.
  - intros c' Hc' Hin. apply (Hdisj (eh_Name h)).
    + apply list_elem_of_fmap. by exists h.
    + apply list_elem_of_bind. by exists c'.
Qed.

(** The items [add] leaves depend on the items it finds, not on the
    readiness. *)
Lemma add_items_ready r b cfg :
  items (add P {| ready := b; items := items r |} cfg).1
    = items (add P r cfg).1.
Proof. rewrite !add_eq. by destruct (omap _ _). Qed.

End WarmUpContentFacts.

Section RegistryContent.

Variable P : string → result GroupVersion.

Lemma registration_names_parseable cfg (k : string) :
  parseable P cfg →
  k ∈ handler_names cfg →
  k ∈ reg_Name <$>
        omap (registration_for P cfg) (status_Handlers (Status cfg)).
Proof.
  intros Hp Hk. unfold handler_names in Hk.
  apply list_elem_of_fmap in Hk as (h & -> & Hh).
  specialize (Hp h Hh). unfold parses in Hp.
  destruct (P (rh_APIVersion (eh_RequestHook h))) as [gv |] eqn:Hgv; [| done].
  apply list_elem_of_fmap. exists (registration_of cfg h gv). split; [done |].
  apply list_elem_of_omap. exists h. split; [done |].
  unfold registration_for. by rewrite Hgv.
Qed.

(** X1. After [Add] of a config whose handlers all parse, [Get] of a
    declared handler name returns the registration built from the last
    handler of that name: owned by the config, with the parsed group and
    version, the hook, the client config of the config and the timeout and
    failure policy of the handler, whatever was under that name before. *)
Theorem Add_then_Get (r : extensionRegistry) (cfg : ExtensionConfig)
    (pre post : list ExtensionHandler) (h : ExtensionHandler)
    (gv : GroupVersion) :
  ready r = true →
  parseable P cfg →
  status_Handlers (Status cfg) = pre ++ h :: post →
  eh_Name h ∉ eh_Name <$> post →
  P (rh_APIVersion (eh_RequestHook h)) = Ok gv →
  Get (Add P r (Some cfg)).1 (eh_Name h) = Ok (registration_of cfg h gv).
Proof.
  intros Hr Hp Hsplit Hlast Hgv. rewrite Add_ready_eq by done.
  unfold Get. rewrite add_ready, Hr. simpl.
  by rewrite (add_lookup_declared P r cfg pre h post gv).
Qed.

(** X2. After [Add] of a config whose handlers all parse, a name the config
    does not declare holds what it held before, unless the registration
    belonged to the config, in which case it is gone. *)
Theorem Add_keeps_undeclared_names (r : extensionRegistry)
    (cfg : ExtensionConfig) (k : string) :
  reachable P r →
  ready r = true →
  parseable P cfg →
  k ∉ handler_names cfg →
  items (Add P r (Some cfg)).1 !! k =
    match items r !! k with
    | Some e =>
        if decide (reg_ExtensionConfigName e = Name cfg) then None else Some e
    | None => None
    end.
Proof.
  intros Hreach Hr Hp Hk. rewrite Add_ready_eq by done.
  rewrite add_lookup_other by (done || by apply (reachable_keyed P)).
  unfold not_owned_by. rewrite map_lookup_filter.
  destruct (items r !! k) as [e |]; simpl; [| done].
  destruct (decide (reg_ExtensionConfigName e = Name cfg)).
  - by rewrite option_guard_False by (by intros ?).
  - by rewrite option_guard_True.
Qed.

(** X3. [Remove] after [Add] of the same config, whose handlers all parse,
    succeeds and leaves the registrations of the other owners under the
    names the config does not declare: a registration of another owner
    under a declared name was replaced by [Add] and is lost. When the
    config owned nothing and none of its names was taken, the registry is
    back to what it was. *)
Theorem Add_then_Remove (r : extensionRegistry) (cfg : ExtensionConfig) :
  reachable P r →
  ready r = true →
  parseable P cfg →
  (Remove (Add P r (Some cfg)).1 (Some cfg)).2 = None ∧
  items (Remove (Add P r (Some cfg)).1 (Some cfg)).1 =
    filter (λ kv, reg_ExtensionConfigName kv.2 ≠ Name cfg ∧
                  kv.1 ∉ handler_names cfg) (items r) ∧
  ((∀ k e, items r !! k = Some e →
           reg_ExtensionConfigName e ≠ Name cfg ∧ k ∉ handler_names cfg) →
   (Remove (Add P r (Some cfg)).1 (Some cfg)).1 = r).
Proof.
  intros Hreach Hr Hp.
  pose proof (reachable_keyed P r Hreach) as Hk.
  assert (Hk1 : keyed_by_name (items (add P r cfg).1)) by (by apply add_keyed).
  rewrite Add_ready_eq by done.
  assert (Hrem : Remove (add P r cfg).1 (Some cfg)
                 = (remove (add P r cfg).1 cfg, None)).
  { unfold Remove. by rewrite add_ready, Hr. }
  rewrite Hrem. cbn [fst snd].
  assert (Hitems : items (remove (add P r cfg).1 cfg) =
    filter (λ kv, reg_ExtensionConfigName kv.2 ≠ Name cfg ∧
                  kv.1 ∉ handler_names cfg) (items r)).
  { rewrite remove_items by done. apply map_eq. intros k.
    unfold not_owned_by at 1. rewrite !map_lookup_filter.
    destruct (decide (k ∈ handler_names cfg)) as [Hin | Hout].
    - rewrite add_parseable_eq by done. cbn [fst items].
      destruct (stores_lookup_stored
                  (omap (registration_for P cfg) (status_Handlers (Status cfg)))
                  (items (remove r cfg)) ∅ k
                  (registration_names_parseable cfg k Hp Hin))
        as [_ (e & He & ->)].
      simpl. rewrite option_guard_False.
      2:{ intros Hne. apply Hne.
          by apply (registrations_owned P cfg (status_Handlers (Status cfg))). }
      destruct (items r !! k) as [e' |]; simpl; [| done].
      rewrite option_guard_False; [done | by intros [_ ?]].
    - rewrite add_lookup_other by done. unfold not_owned_by.
      rewrite map_lookup_filter.
      destruct (items r !! k) as [e |]; simpl; [| done].
      destruct (decide (reg_ExtensionConfigName e = Name cfg)) as [Ho | Ho].
      + rewrite !option_guard_False; [done | by intros [? _] | by intros ?].
      + rewrite !option_guard_True by done. simpl.
        by rewrite option_guard_True. }
  split; [done |]. split; [done |].
  intros Hfree. destruct r as [rd m]. unfold remove in *. simpl in *.
  rewrite add_ready. simpl. f_equal. rewrite Hitems.
  apply map_eq. intros k. rewrite map_lookup_filter.
  destruct (m !! k) as [e |] eqn:Hm; simpl; [| done].
  rewrite option_guard_True; [done |]. by apply Hfree.
Qed.

(** X4. The error of [Add] on a ready registry holds, in the order of the
    handlers, one wrapped parse error for each handler whose API version
    does not parse: every malformed handler is reported, not the first
    alone; there is no error when they all parse. *)
Theorem Add_reports_every_malformed_handler (r : extensionRegistry)
    (cfg : ExtensionConfig) :
  ready r = true →
  (Add P r (Some cfg)).2 =
    match omap (parse_error_for P) (status_Handlers (Status cfg)) with
    | [] => None
    | errs => Some (NewAggregate errs)
    end ∧
  length (omap (parse_error_for P) (status_Handlers (Status cfg))) =
    length (filter (λ h, parses P (rh_APIVersion (eh_RequestHook h)) = false)
              (status_Handlers (Status cfg))).
Proof.
  intros Hr. rewrite Add_ready_eq by done. split; [apply add_error |].
  induction (status_Handlers (Status cfg)) as [| h hs IH]; [done |].
  rewrite filter_cons. simpl.
  destruct (decide (parses P (rh_APIVersion (eh_RequestHook h)) = false))
    as [Hf | Hf]; unfold parse_error_for at 1; unfold parses in Hf;
    destruct (P (rh_APIVersion (eh_RequestHook h)));
    try discriminate Hf; try (by destruct Hf); simpl.
  all: first [exact IH | f_equal; exact IH].
Qed.

(** X5. A warm-up of a registry that is not ready, with configs that all
    parse, have different names and declare different handler names,
    leaves every handler of every config in the registry: [Get] of its name
    returns the registration built from it. *)
Theorem WarmUp_registers_every_handler (r : extensionRegistry)
    (C : ExtensionConfigList) (cfg : ExtensionConfig) (h : ExtensionHandler)
    (gv : GroupVersion) :
  reachable P r →
  ready r = false →
  (∀ c, c ∈ Items C → parseable P c) →
  NoDup (Name <$> Items C) →
  NoDup (Items C ≫= handler_names) →
  cfg ∈ Items C →
  h ∈ status_Handlers (Status cfg) →
  P (rh_APIVersion (eh_RequestHook h)) = Ok gv →
  Get (WarmUp P r (Some C)).1 (eh_Name h) = Ok (registration_of cfg h gv).
Proof.
  intros Hreach Hr Hp Hnames Hhandlers Hcfg Hh Hgv.
  pose proof (WarmUp_items_declared P (Items C) r [] cfg h gv
                (reachable_keyed P r Hreach) Hp Hnames Hhandlers Hcfg Hh Hgv)
    as Hlookup.
  pose proof (WarmUp_items_errs P (Items C) r []) as Herrs.
  unfold WarmUp. rewrite Hr.
  destruct (foldl (WarmUp_item P) (r, []) (Items C)) as [r' errs].
  simpl in *. assert (errs = []) as -> by (by apply Herrs).
  simpl. unfold Get. simpl. by rewrite Hlookup.
Qed.

(** X6. The error of a warm-up of a registry that is not ready holds, in
    the order of the list, the error of each config that has a malformed
    handler: the configs after a failing one are still processed and
    reported. *)
Theorem WarmUp_reports_every_failing_config (r : extensionRegistry)
    (C : ExtensionConfigList) :
  ready r = false →
  (WarmUp P r (Some C)).2 =
    match omap (config_error P) (Items C) with
    | [] => None
    | errs => Some (NewAggregate errs)
    end.
Proof.
  intros Hr. unfold WarmUp. rewrite Hr.
  pose proof (WarmUp_items_errors P (Items C) r []) as Herrs.
  destruct (foldl (WarmUp_item P) (r, []) (Items C)) as [r' errs].
  simpl in Herrs. subst errs.
  by destruct (omap (config_error P) (Items C)).
Qed.

(** X7. A warm-up that succeeds leaves the registrations that [Add] of the
    configs, one after the other in the order of the list, leaves in a
    ready registry that starts with the same items. *)
Theorem WarmUp_as_Adds (r : extensionRegistry) (C : ExtensionConfigList) :
  ready r = false →
  (∀ c, c ∈ Items C → parseable P c) →
  items (WarmUp P r (Some C)).1 =
  items (foldl (λ r' c, (Add P r' (Some c)).1)
           {| ready := true; items := items r |} (Items C)).
Proof.
  intros Hr Hp.
  pose proof (WarmUp_items_errs P (Items C) r []) as Herrs.
  unfold WarmUp. rewrite Hr.
  assert (Hfold : ∀ l r1 r2 errs,
    items r1 = items r2 → ready r2 = true →
    items (foldl (WarmUp_item P) (r1, errs) l).1 =
    items (foldl (λ r' c, (Add P r' (Some c)).1) r2 l)).
  { induction l as [| c l IH]; intros r1 r2 errs Heq Hr2; cbn [foldl];
      [done |].
    destruct (WarmUp_item P (r1, errs) c) as [r1' errs'] eqn:Hstep.
    pose proof (WarmUp_item_fst P r1 errs c) as Hfst.
    rewrite Hstep in Hfst. simpl in Hfst. subst r1'.
    apply IH.
    - rewrite Add_ready_eq by done.
      rewrite <- (add_items_ready P r1 true c). rewrite Heq.
      destruct r2 as [rd m]. simpl in *. by subst rd.
    - rewrite Add_ready_eq by done. by rewrite add_ready. }
  specialize (Hfold (Items C) r {| ready := true; items := items r |} []
                eq_refl eq_refl).
  destruct (foldl (WarmUp_item P) (r, []) (Items C)) as [r' errs].
  simpl in *. assert (errs = []) as -> by (by apply Herrs). done.
Qed.

(** X8. [Get] returns a registration of the name it was asked: every
    registration of a registry is stored under its own name. *)
Theorem Get_returns_requested_name (r : extensionRegistry) (name : string)
    (reg : ExtensionRegistration) :
  reachable P r →
  Get r name = Ok reg →
  reg_Name reg = name.
Proof.
  intros Hreach. unfold Get. destruct (ready r); [| done]. simpl.
  destruct (items r !! name) as [e |] eqn:Hname; [| done].
  intros [= <-]. by apply (reachable_keyed P r Hreach).
Qed.

(** X9. The registrations [List] returns have different names, and [Get]
    of the name of each returns that registration. *)
Theorem List_agrees_with_Get (r : extensionRegistry) (gh : GroupHook)
    (l : list ExtensionRegistration) :
  reachable P r →
  List r gh = Ok l →
  NoDup (reg_Name <$> l) ∧ ∀ reg, reg ∈ l → Get r (reg_Name reg) = Ok reg.
Proof.
  intros Hreach. pose proof (reachable_keyed P r Hreach) as Hk.
  unfold List. destruct (decide _); [done |]. destruct (decide _); [done |].
  destruct (ready r) eqn:Hr; [| done]. simpl. intros [= <-].
  assert (Hnames : reg_Name <$> (map_to_list (items r)).*2
                   = (map_to_list (items r)).*1).
  { assert (Hall : Forall (λ kv, reg_Name kv.2 = kv.1) (map_to_list (items r))).
    { apply Forall_forall. intros [k e] Hin.
      apply elem_of_map_to_list in Hin. by apply Hk. }
    induction Hall as [| [k e] kvs Hke _ IH]; [done |].
    rewrite !fmap_cons. cbn [fst snd] in *. by rewrite Hke, IH. }
  split.
  - apply (sublist_NoDup _ (reg_Name <$> (map_to_list (items r)).*2)).
    + rewrite Hnames. apply NoDup_fst_map_to_list.
    + apply fmap_sublist, sublist_filter.
  - intros reg Hreg. apply list_elem_of_filter in Hreg as [_ Hreg].
    apply elem_of_values in Hreg as [k Hreg].
    unfold Get. rewrite Hr. simpl.
    rewrite (Hk k reg Hreg). by rewrite Hreg.
Qed.

(** X10. [Add] and [Remove] leave the readiness as it is, whatever their
    argument and their outcome, and a [WarmUp] of a ready registry leaves
    it ready: nothing makes a ready registry not ready again. *)
Theorem readiness_only_raised (r : extensionRegistry)
    (cfg : option ExtensionConfig) (l : option ExtensionConfigList) :
  ready (Add P r cfg).1 = ready r ∧
  ready (Remove r cfg).1 = ready r ∧
  (ready r = true → ready (WarmUp P r l).1 = true).
Proof.
  split; [| split].
  - unfold Add. destruct cfg as [c |]; [| done].
    destruct (ready r) eqn:Hr; simpl; [| done]. by rewrite add_ready.
  - unfold Remove. destruct cfg as [c |]; [| done].
    by destruct (ready r) eqn:Hr.
  - intros Hr. unfold WarmUp. destruct l as [l |]; [| done]. by rewrite Hr.
Qed.

(** X11. A registry that is not ready holds no registration: what a failed
    warm-up had stored is never left behind. *)
Theorem cold_registry_empty (r : extensionRegistry) :
  reachable P r →
  ready r = false →
  items r = ∅.
Proof. apply reachable_cold_empty. Qed.

End RegistryContent.

(** * Further properties of the reconciler *)

Section PathFacts.

Variable P : string → result GroupVersion.
Variable κ : Collaborators.

(** [reconcileCABundle] takes one of the five outcomes of the CA-bundle
    step. *)
Lemma reconcileCABundle_CA_step w config w1 res :
  reconcileCABundle κ w config = (w1, res) → CA_step κ w config w1 res.
Proof.
  unfold reconcileCABundle. intros H.
  destruct (Annotations config !! InjectCAFromSecretAnnotation)
    as [raw |] eqn:Hann.
  2:{ injection H as <- <-. by constructor. }
  destruct (bool_decide (nn_Namespace (splitNamespacedName raw) = EmptyString))
    eqn:Hns.
  { injection H as <- <-. apply CA_malformed_name; [done |]. left.
    by apply bool_decide_eq_true in Hns. }
  destruct (bool_decide (nn_Name (splitNamespacedName raw) = EmptyString))
    eqn:Hn.
  { injection H as <- <-. apply CA_malformed_name; [done |]. right.
    by apply bool_decide_eq_true in Hn. }
  apply bool_decide_eq_false in Hns, Hn. cbn [orb] in H.
  destruct (client_GetSecret κ (splitNamespacedName raw)) as [secret | err]
    eqn:Hsecret.
  2:{ injection H as <- <-. by apply CA_secret_unreadable. }
  destruct (Data secret !! tlsCAKey) as [caData |] eqn:Hdata;
    injection H as <- <-.
  - by eapply CA_injected.
  - by eapply CA_entry_missing.
Qed.

Lemma CA_step_effect w config w1 res :
  CA_step κ w config w1 res →
  registry w1 = registry w ∧
  (calls w1 = calls w ∨ ∃ key, calls w1 = calls w ++ [CallGetSecret key]).
Proof. destruct 1; (split; [done |]); (by left) || (right; by eexists). Qed.

Lemma two_calls (w : World) r a b :
  registry w = r →
  call (call w a) b = {| registry := r; calls := calls w ++ [a; b] |}.
Proof. intros <-. unfold call. simpl. by rewrite <- app_assoc. Qed.

Lemma three_calls (w : World) r' a b c :
  with_registry (call (call (call w a) b) c) r' =
  {| registry := r'; calls := calls w ++ [a; b; c] |}.
Proof. unfold with_registry, call. simpl. by rewrite <- !app_assoc. Qed.

Lemma discoverExtensionConfig_eq w config :
  discoverExtensionConfig κ w config =
  (call w (CallDiscover config),
   (discovery_object κ config,
    (λ e, errors_Wrap e
            ("failed to discover ExtensionConfig " +:+ KObj config))
    <$> result_error (Discover κ config))).
Proof.
  unfold discovery_object, discoverExtensionConfig.
  by destruct (Discover κ config).
Qed.

(** [Reconcile] takes one of the nine paths. *)
Lemma Reconcile_cycle r req w' res rerr :
  Reconcile P κ (start r) req = (w', (res, rerr)) →
  cycle P κ r req w' res rerr.
Proof.
  intros Hrun. unfold Reconcile, RuntimeClient_IsReady, IsReady in Hrun.
  cbn [start registry] in Hrun.
  destruct (ready r) eqn:Hr; cbn [negb] in Hrun.
  2:{ injection Hrun as <- <- <-. by constructor. }
  destruct (client_Get κ (req_NamespacedName req)) as [original | gerr]
    eqn:Hget.
  2:{ destruct (IsNotFound κ gerr) eqn:Hnf.
      - unfold reconcileDelete, RuntimeClient_Unregister, Remove in Hrun.
        cbn in Hrun. rewrite Hr in Hrun. cbn in Hrun.
        injection Hrun as <- <- <-. by eapply cycle_not_found.
      - injection Hrun as <- <- <-. by apply cycle_get_failed. }
  destruct (EnsurePausedCondition κ original)
    as [[[conds isPaused] requeue] perr] eqn:Hpause.
  destruct (bool_decide (is_Some perr) || isPaused || requeue) eqn:Hstop.
  { injection Hrun as <- <- <-. eapply cycle_paused; try done.
    apply orb_true_iff in Hstop as [Hstop | Hstop]; [| by right; right].
    apply orb_true_iff in Hstop as [Hstop | Hstop]; [| by right; left].
    left. by apply bool_decide_eq_true in Hstop. }
  apply orb_false_iff in Hstop as [Hstop Hrq].
  apply orb_false_iff in Hstop as [Herr Hp].
  apply bool_decide_eq_false in Herr.
  assert (perr = None) as -> by (destruct perr; [by destruct Herr | done]).
  subst isPaused requeue.
  change (DeletionTimestamp (with_Conditions original conds))
    with (DeletionTimestamp original) in Hrun.
  destruct (IsZero (DeletionTimestamp original)) eqn:Hzero; cbn [negb] in Hrun.
  2:{ unfold reconcileDelete, RuntimeClient_Unregister, Remove in Hrun.
      cbn in Hrun. rewrite Hr in Hrun. cbn in Hrun.
      injection Hrun as <- <- <-. by apply cycle_deleting. }
  change (call (call (call (start r) CallIsReady)
                  (CallGet (req_NamespacedName req)))
            (CallEnsurePausedCondition original))
    with (fetched r req original) in Hrun.
  destruct (reconcileCABundle κ (fetched r req original)
              (with_Conditions original conds))
    as [w [config | caerr]] eqn:HCA;
    apply reconcileCABundle_CA_step in HCA;
    pose proof (CA_step_effect _ _ _ _ HCA) as [Hreg _].
  2:{ injection Hrun as <- <- <-. by eapply cycle_CA_failed. }
  rewrite discoverExtensionConfig_eq in Hrun.
  unfold patchExtensionConfig in Hrun.
  destruct (patchHelper_Patch κ original (discovery_object κ config))
    as [patched perr] eqn:Hpatch.
  destruct (Discover κ config) as [discovered | de] eqn:Hdisc;
    cbn [result_error fmap option_fmap option_map append_err] in Hrun.
  - destruct perr as [pe |]; cbn -[Add] in Hrun.
    + injection Hrun as <- <- <-.
      rewrite (two_calls w r) by done.
      eapply (cycle_patch_failed P κ r req original conds w config); done.
    + unfold RuntimeClient_Register in Hrun. cbn -[Add] in Hrun.
      rewrite Hreg in Hrun. cbn -[Add] in Hrun.
      destruct (Add P r (Some patched)) as [r' rgerr] eqn:Hadd.
      destruct rgerr as [rge |]; injection Hrun as <- <- <-;
        rewrite (three_calls w r').
      * by eapply (cycle_registered P κ r req original conds w config
                     discovered patched r' (Some rge)).
      * by eapply (cycle_registered P κ r req original conds w config
                     discovered patched r' None).
  - assert (Hout : w' = {| registry := r;
                           calls := calls w ++
                             [CallDiscover config;
                              CallPatch original (discovery_object κ config)] |}
                   ∧ res = {| Requeue := false |}
                   ∧ rerr = Some (NewAggregate
                       (errors_Wrap de
                          ("failed to discover ExtensionConfig " +:+
                           KObj config) :: option_list perr))).
    { destruct perr; cbn in Hrun; injection Hrun as <- <- <-;
        by rewrite (two_calls w r). }
    destruct Hout as (-> & -> & ->).
    by eapply (cycle_discovery_failed P κ r req original conds w config).
Qed.

End PathFacts.

(** The paths of a cycle, with the trace of each written out. *)
Ltac cycle_paths H :=
  apply Reconcile_cycle in H; destruct H;
  repeat match goal with
         | HCA : CA_step _ _ _ _ _ |- _ => inversion HCA; subst; clear HCA
         end;
  cbn [calls registry fetched call app] in *.

Lemma remove_eq r cfg :
  keyed_by_name (items r) →
  remove r cfg =
  {| ready := ready r; items := not_owned_by (Name cfg) (items r) |}.
Proof.
  intros Hk. pose proof (remove_items r cfg Hk) as Hitems.
  unfold remove in *. simpl in Hitems. by rewrite Hitems.
Qed.

Lemma Add_ready_any P r cfg : ready (Add P r cfg).1 = ready r.
Proof.
  unfold Add. destruct cfg as [c |]; [| done].
  destruct (ready r) eqn:Hr; simpl; [| done]. by rewrite add_ready.
Qed.

Lemma Remove_ready_any r cfg : ready (Remove r cfg).1 = ready r.
Proof.
  unfold Remove. destruct cfg as [c |]; [| done]. by destruct (ready r) eqn:Hr.
Qed.

Section ReconcilerPaths.

Variable P : string → result GroupVersion.
Variable κ : Collaborators.

(** X12. A cycle that unregisters does so for an object that was not found,
    under the identity of the request, or for a fetched object that is
    being deleted. It deletes the registrations owned by the name of that
    object and only them, returns no error, and reads no secret, discovers,
    patches and registers nothing. *)
Theorem Reconcile_unregisters (r : extensionRegistry) (req : Request)
    (w' : World) (res : Result) (rerr : option error)
    (obj : ExtensionConfig) :
  reachable P r →
  Reconcile P κ (start r) req = (w', (res, rerr)) →
  CallUnregister obj ∈ calls w' →
  registry w' =
    {| ready := true; items := not_owned_by (Name obj) (items r) |} ∧
  res = {| Requeue := false |} ∧ rerr = None ∧
  ((∃ err,
      client_Get κ (req_NamespacedName req) = Err err ∧
      IsNotFound κ err = true ∧
      Name obj = nn_Name (req_NamespacedName req) ∧
      Namespace obj = nn_Namespace (req_NamespacedName req) ∧
      calls w' = [CallIsReady; CallGet (req_NamespacedName req);
                  CallUnregister obj]) ∨
   (∃ original,
      client_Get κ (req_NamespacedName req) = Ok original ∧
      IsZero (DeletionTimestamp original) = false ∧
      Name obj = Name original ∧
      calls w' = [CallIsReady; CallGet (req_NamespacedName req);
                  CallEnsurePausedCondition original;
                  CallUnregister obj])).
Proof.
  intros Hreach Hrun Hin.
  pose proof (reachable_keyed P r Hreach) as Hk.
  cycle_paths Hrun; trace_mem Hin; subst; rewrite remove_eq by done;
    match goal with Hr : ready r = true |- _ => rewrite Hr end;
    repeat (split; [done |]).
  - left. by eexists.
  - right. by eexists.
Qed.

(** X13. A cycle that registers does so once the discovery and the patch
    have succeeded, with the object as the patch left it: the registry
    afterwards is the one [Add] of that object leaves, and the cycle
    returns no error exactly when the handlers of that object all parse. *)
Theorem Reconcile_registers (r : extensionRegistry) (req : Request)
    (w' : World) (res : Result) (rerr : option error)
    (obj : ExtensionConfig) :
  Reconcile P κ (start r) req = (w', (res, rerr)) →
  CallRegister obj ∈ calls w' →
  (∃ original config discovered,
     client_Get κ (req_NamespacedName req) = Ok original ∧
     CallDiscover config ∈ calls w' ∧
     Discover κ config = Ok discovered ∧
     CallPatch original (discovery_object κ config) ∈ calls w' ∧
     patchHelper_Patch κ original (discovery_object κ config)
       = (obj, None)) ∧
  registry w' = (Add P r (Some obj)).1 ∧
  res = {| Requeue := false |} ∧
  (rerr = None ↔ parseable P obj).
Proof.
  intros Hrun Hin.
  cycle_paths Hrun; trace_mem Hin; subst;
    match goal with
    | Hadd : Add P r (Some ?o) = (_, ?rgerr), Hr : ready r = true |- _ =>
        pose proof (add_error_iff P r o) as Hiff;
        rewrite <- (Add_ready_eq P r o Hr) in Hiff;
        rewrite Hadd in *; simpl in Hiff
    end;
    (split; [eexists _, _, _; repeat split; try done;
             rewrite ?elem_of_cons; auto 10 |]);
    (split; [done |]); (split; [done |]);
    rewrite <- Hiff; by destruct rgerr.
Qed.

(** X14. A cycle whose discovery call succeeds attempts the patch with the
    discovered object, its Discovered condition set to true and its
    handler list and spec as the discovery returned them. *)
Theorem Reconcile_discovery_succeeds (r : extensionRegistry) (req : Request)
    (w' : World) (res : Result) (rerr : option error)
    (obj discovered : ExtensionConfig) :
  Reconcile P κ (start r) req = (w', (res, rerr)) →
  CallDiscover obj ∈ calls w' →
  Discover κ obj = Ok discovered →
  ∃ original modified,
    client_Get κ (req_NamespacedName req) = Ok original ∧
    CallPatch original modified ∈ calls w' ∧
    FindStatusCondition (status_Conditions (Status modified))
        ExtensionConfigDiscoveredCondition =
      Some {| cond_Type := ExtensionConfigDiscoveredCondition;
              cond_Status := ConditionTrue;
              cond_Reason := ExtensionConfigDiscoveredReason;
              cond_Message := EmptyString |} ∧
    status_Handlers (Status modified) = status_Handlers (Status discovered) ∧
    Spec modified = Spec discovered ∧
    Name modified = Name discovered ∧
    Annotations modified = Annotations discovered.
Proof.
  intros Hrun Hin Hd.
  assert (Hobj : discovery_object κ obj =
    conditions_Set
      (v1beta1conditions_MarkTrue discovered
         RuntimeExtensionDiscoveredV1Beta1Condition)
      {| cond_Type := ExtensionConfigDiscoveredCondition;
         cond_Status := ConditionTrue;
         cond_Reason := ExtensionConfigDiscoveredReason;
         cond_Message := EmptyString |}).
  { unfold discovery_object, discoverExtensionConfig. by rewrite Hd. }
  cycle_paths Hrun; trace_mem Hin; subst; try congruence;
    match goal with
    | H : patchHelper_Patch κ ?o ?m = _ |- _ => exists o, m
    end;
    (split; [done |]);
    (split; [rewrite ?elem_of_cons; auto 10 |]);
    rewrite Hobj;
    (split; [apply (FindStatusCondition_set _
               {| cond_Type := ExtensionConfigDiscoveredCondition |}) |]);
    done.
Qed.

(** X15. A cycle whose patch fails does not register: the registry is as it
    was, and the cycle returns an aggregate error that ends with the error
    of the patch. *)
Theorem Reconcile_patch_fails (r : extensionRegistry) (req : Request)
    (w' : World) (res : Result) (rerr : option error)
    (original modified patched : ExtensionConfig) (perr : error) :
  Reconcile P κ (start r) req = (w', (res, rerr)) →
  CallPatch original modified ∈ calls w' →
  patchHelper_Patch κ original modified = (patched, Some perr) →
  registry w' = r ∧
  (∀ c, c ∈ calls w' → is_register c = false) ∧
  res = {| Requeue := false |} ∧
  ∃ errs, rerr = Some (NewAggregate (errs ++ [perr])).
Proof.
  intros Hrun Hin Hpatch.
  cycle_paths Hrun; trace_mem Hin; subst; try congruence;
    (split; [done |]);
    (split; [intros c Hc; trace_mem Hc; by subst c |]);
    (split; [done |]);
    match goal with
    | H : patchHelper_Patch κ _ _ = _ |- _ =>
        rewrite Hpatch in H; injection H as <- <-
    end;
    first [by exists [] | by eexists [_]].
Qed.

(** X16. A cycle patches exactly when it has called the discovery: the patch
    compares the object as it was fetched with the object the discovery
    step returned, whether the discovery succeeded or failed. *)
Theorem Reconcile_patches_what_it_discovers (r : extensionRegistry)
    (req : Request) (w' : World) (res : Result) (rerr : option error) :
  Reconcile P κ (start r) req = (w', (res, rerr)) →
  (∀ obj, CallDiscover obj ∈ calls w' →
     ∃ original,
       client_Get κ (req_NamespacedName req) = Ok original ∧
       CallPatch original (discovery_object κ obj) ∈ calls w') ∧
  (∀ original modified, CallPatch original modified ∈ calls w' →
     client_Get κ (req_NamespacedName req) = Ok original ∧
     ∃ obj, CallDiscover obj ∈ calls w' ∧
            modified = discovery_object κ obj).
Proof.
  intros Hrun. split.
  - intros obj Hin.
    cycle_paths Hrun; trace_mem Hin; subst;
      match goal with
      | H : client_Get κ _ = Ok ?o |- _ => exists o
      end;
      (split; [done |]); rewrite ?elem_of_cons; auto 10.
  - intros original modified Hin.
    cycle_paths Hrun; trace_mem Hin; subst; (split; [done |]);
      match goal with
      | H : Discover κ ?c = _ |- _ => exists c
      end;
      (split; [| done]); rewrite ?elem_of_cons; auto 10.
Qed.

(** X17. A cycle leaves the readiness of the registry as it is and the
    registry in a state of a registry; it writes to the registry through
    the register and unregister steps alone. *)
Theorem Reconcile_registry_writes (r : extensionRegistry) (req : Request)
    (w' : World) (res : Result) (rerr : option error) :
  Reconcile P κ (start r) req = (w', (res, rerr)) →
  ready (registry w') = ready r ∧
  (reachable P r → reachable P (registry w')) ∧
  ((∀ c, c ∈ calls w' → is_register c = false ∧ is_unregister c = false) →
   registry w' = r).
Proof.
  intros Hrun. cycle_paths Hrun;
    try match goal with
        | Hadd : Add P r (Some ?o) = (?r', _) |- _ =>
            assert (r' = (Add P r (Some o)).1) as -> by (by rewrite Hadd);
            clear Hadd
        end;
    try match goal with
        | Hr : ready r = true |- context [remove r ?o] =>
            assert (remove r o = (Remove r (Some o)).1) as ->
              by (unfold Remove; by rewrite Hr)
        end.
  all: split; [first [done | apply Add_ready_any | apply Remove_ready_any] |].
  all: split; [first [done | by apply reachable_Add
                           | by apply reachable_Remove] |].
  all: try done.
  all: intros Hnone; exfalso.
  all: match goal with
       | Hnone : ∀ c, c ∈ ?l → _ |- _ =>
           match l with
           | context [CallUnregister ?o] =>
               destruct (Hnone (CallUnregister o)) as [_ ?];
               [rewrite ?elem_of_cons; auto 10 | done]
           | context [CallRegister ?o] =>
               destruct (Hnone (CallRegister o)) as [? _];
               [rewrite ?elem_of_cons; auto 10 | done]
           end
       end.
Qed.

(** X18. A cycle whose pause check reports an error, a paused object or a
    requeue ends there: it returns the error of the pause check, if any,
    with an empty result, after the readiness query, the fetch and the
    pause check alone, and the registry is as it was. *)
Theorem Reconcile_paused (r : extensionRegistry) (req : Request)
    (w' : World) (res : Result) (rerr : option error)
    (original : ExtensionConfig) (conds : list Condition)
    (isPaused requeue : bool) (err : option error) :
  Reconcile P κ (start r) req = (w', (res, rerr)) →
  CallEnsurePausedCondition original ∈ calls w' →
  EnsurePausedCondition κ original = (conds, isPaused, requeue, err) →
  is_Some err ∨ isPaused = true ∨ requeue = true →
  w' = fetched r req original ∧ res = {| Requeue := false |} ∧ rerr = err.
Proof.
  intros Hrun Hin Hpause Hstop.
  cycle_paths Hrun; trace_mem Hin; subst;
    match goal with
    | H : EnsurePausedCondition κ _ = _ |- _ =>
        rewrite Hpause in H; injection H as ? ? ? ?; subst
    end;
    try done;
    destruct Hstop as [[? ?] | [? | ?]]; done.
Qed.

(** X19. A cycle for an object whose annotation does not hold both a
    namespace and a name reads no secret, discovers, patches and registers
    nothing; once past the pause and deletion checks it returns the error
    that quotes the annotation, with the registry as it was. *)
Theorem Reconcile_malformed_secret_reference (r : extensionRegistry)
    (req : Request) (w' : World) (res : Result) (rerr : option error)
    (original : ExtensionConfig) (secretNameRaw : string) :
  Reconcile P κ (start r) req = (w', (res, rerr)) →
  client_Get κ (req_NamespacedName req) = Ok original →
  Annotations original !! InjectCAFromSecretAnnotation = Some secretNameRaw →
  nn_Namespace (splitNamespacedName secretNameRaw) = EmptyString ∨
  nn_Name (splitNamespacedName secretNameRaw) = EmptyString →
  (∀ c, c ∈ calls w' →
        is_get_secret c = false ∧ is_discover c = false ∧
        is_patch c = false ∧ is_register c = false) ∧
  (∀ conds,
     ready r = true →
     EnsurePausedCondition κ original = (conds, false, false, None) →
     IsZero (DeletionTimestamp original) = true →
     w' = fetched r req original ∧
     rerr = Some (errors_New
       ("failed to reconcile caBundle: secret name " +:+
        quote secretNameRaw +:+
        " must be in the form <namespace>/<name>"))).
Proof.
  intros Hrun Hget Hann Hbad.
  cycle_paths Hrun;
    repeat match goal with
           | H : client_Get κ _ = _ |- _ =>
               rewrite Hget in H; first [discriminate H | injection H as <-]
           end;
    cbn [Annotations with_Conditions with_Status] in *;
    repeat match goal with
           | H : client_Get κ _ = _ |- _ =>
               rewrite Hget in H; first [discriminate H | injection H as <-]
           | H : Annotations _ !! _ = _ |- _ =>
               rewrite Hann in H; first [discriminate H | injection H as <-]
           end;
    try (by destruct Hbad).
  all: split;
    [intros c Hc; trace_mem Hc; by subst c
    | intros conds' Hr Hp Hz; try congruence].
  all: try (match goal with
            | H : EnsurePausedCondition κ _ = _ |- _ =>
                rewrite Hp in H; injection H as <- <- <- <-
            end;
            match goal with
            | H : is_Some None ∨ false = true ∨ false = true |- _ =>
                by destruct H as [[? ?] | [? | ?]]
            end).
  done.
Qed.

(** X20. A cycle that reads a secret holding the CA entry calls the
    discovery with the fetched object carrying that CA bundle, its URL,
    service, handlers and name as fetched, and patches against the object
    as it was fetched, so that the bundle is part of what the patch
    writes. *)
Theorem Reconcile_discovers_with_injected_CA (r : extensionRegistry)
    (req : Request) (w' : World) (res : Result) (rerr : option error)
    (key : NamespacedName) (secret : Secret) (caData : list Byte.byte) :
  Reconcile P κ (start r) req = (w', (res, rerr)) →
  CallGetSecret key ∈ calls w' →
  client_GetSecret κ key = Ok secret →
  Data secret !! tlsCAKey = Some caData →
  ∃ original obj,
    client_Get κ (req_NamespacedName req) = Ok original ∧
    CallDiscover obj ∈ calls w' ∧
    CallPatch original (discovery_object κ obj) ∈ calls w' ∧
    cc_CABundle (spec_ClientConfig (Spec obj)) = caData ∧
    cc_URL (spec_ClientConfig (Spec obj))
      = cc_URL (spec_ClientConfig (Spec original)) ∧
    cc_Service (spec_ClientConfig (Spec obj))
      = cc_Service (spec_ClientConfig (Spec original)) ∧
    status_Handlers (Status obj) = status_Handlers (Status original) ∧
    Name obj = Name original ∧ Namespace obj = Namespace original ∧
    Annotations obj = Annotations original.
Proof.
  intros Hrun Hin Hsecret Hdata.
  cycle_paths Hrun; trace_mem Hin; subst;
    match goal with
    | H : client_GetSecret κ _ = _ |- _ =>
        rewrite Hsecret in H; first [discriminate H | injection H as <-]
    end;
    match goal with
    | H : Data secret !! tlsCAKey = _ |- _ =>
        rewrite Hdata in H; first [discriminate H | injection H as <-]
    end;
    match goal with
    | H : client_Get κ _ = Ok ?o, H' : Discover κ ?c = _ |- _ => exists o, c
    end;
    (split; [done |]);
    (split; [rewrite ?elem_of_cons; auto 10 |]);
    (split; [rewrite ?elem_of_cons; auto 10 |]);
    done.
Qed.

(** X21. A cycle whose secret cannot be read ends with that error, wrapped,
    with the registry as it was and nothing discovered, patched or
    registered. *)
Theorem Reconcile_secret_unreadable (r : extensionRegistry)
    (req : Request) (w' : World) (res : Result) (rerr : option error)
    (key : NamespacedName) (err : error) :
  Reconcile P κ (start r) req = (w', (res, rerr)) →
  CallGetSecret key ∈ calls w' →
  client_GetSecret κ key = Err err →
  (∃ secretNameRaw,
     key = splitNamespacedName secretNameRaw ∧
     rerr = Some (errors_Wrap err
       ("failed to reconcile caBundle: failed to get secret " +:+
        quote secretNameRaw))) ∧
  res = {| Requeue := false |} ∧
  registry w' = r ∧
  ∀ c, c ∈ calls w' →
       is_discover c = false ∧ is_patch c = false ∧ is_register c = false ∧
       is_unregister c = false.
Proof.
  intros Hrun Hin Hsecret.
  cycle_paths Hrun; trace_mem Hin; subst;
    match goal with
    | H : client_GetSecret κ _ = _ |- _ =>
        rewrite Hsecret in H; first [discriminate H | injection H as <-]
    end;
    (split; [by eexists |]); (split; [done |]); (split; [done |]);
    intros c Hc; trace_mem Hc; by subst c.
Qed.

End ReconcilerPaths.

(** * Namespaced names and the secret-change mapping *)

Lemma append_cons x (a b : string) :
  String x a +:+ b = String x (a +:+ b).
Proof. done. Qed.

Lemma substring_whole (s : string) :
  String.substring 0 (String.length s) s = s.
Proof. induction s as [| c s IH]; simpl; [done | by rewrite IH]. Qed.

Lemma IndexRune_None_cons x s c :
  IndexRune (String x s) c = None ↔ x ≠ c ∧ IndexRune s c = None.
Proof.
  simpl. destruct (decide (x = c)) as [-> | Hne].
  - split; [done | by intros [? _]].
  - destruct (IndexRune s c); simpl; split; try done; by intros [_ ?].
Qed.

(** The first separator of a joined name is where the two parts meet. *)
Lemma IndexRune_joined a b c :
  IndexRune a c = None →
  IndexRune (a +:+ String c b) c = Some (String.length a).
Proof.
  induction a as [| x a IH]; simpl.
  - intros _. by rewrite decide_True.
  - destruct (decide (x = c)) as [-> | Hne]; [done |].
    destruct (IndexRune a c) eqn:Ha; [done |]. intros _. by rewrite IH.
Qed.

Lemma slice_to_joined a b :
  slice_to (a +:+ b) (String.length a) = a.
Proof.
  unfold slice_to. induction a as [| x a IH]; simpl.
  - by destruct b.
  - by rewrite IH.
Qed.

Lemma slice_from_joined a c b :
  slice_from (a +:+ String c b) (String.length a + 1) = b.
Proof.
  unfold slice_from. induction a as [| x a IH]; simpl.
  - rewrite Nat.sub_0_r. apply substring_whole.
  - apply IH.
Qed.

(** What [IndexRune] finds splits the string at the first separator. *)
Lemma IndexRune_split s c i :
  IndexRune s c = Some i →
  s = slice_to s i +:+ String c (slice_from s (i + 1)) ∧
  IndexRune (slice_to s i) c = None.
Proof.
  revert i. induction s as [| x s IH]; intros i; [done |]. simpl.
  destruct (decide (x = c)) as [-> | Hne].
  - intros [= <-]. unfold slice_to, slice_from. simpl.
    rewrite Nat.sub_0_r, substring_whole. done.
  - destruct (IndexRune s c) as [j |] eqn:Hs; [| done].
    intros [= <-]. destruct (IH j eq_refl) as [Heq Hnone].
    unfold slice_to, slice_from in *. simpl. split.
    + rewrite append_cons. f_equal. exact Heq.
    + rewrite decide_False by done. by rewrite Hnone.
Qed.

Lemma splitNamespacedName_joined ns name :
  IndexRune ns Separator = None →
  splitNamespacedName (ns +:+ "/" +:+ name) =
  {| nn_Namespace := ns; nn_Name := name |}.
Proof.
  intros Hns. unfold splitNamespacedName.
  change ("/" +:+ name) with (String Separator name).
  rewrite IndexRune_joined by done.
  by rewrite slice_to_joined, slice_from_joined.
Qed.

(** X22. [splitNamespacedName] splits at the first separator: a namespace
    without separator joined to a name splits back into the two; a string
    without separator is a name with an empty namespace; and for a string
    with a separator the namespace part has none and the two parts, joined,
    give the string back. *)
Theorem splitNamespacedName_round_trip :
  (∀ ns name,
     IndexRune ns Separator = None →
     splitNamespacedName (ns +:+ "/" +:+ name) =
     {| nn_Namespace := ns; nn_Name := name |}) ∧
  (∀ s,
     IndexRune s Separator = None →
     splitNamespacedName s = {| nn_Namespace := EmptyString; nn_Name := s |}) ∧
  (∀ s,
     IndexRune s Separator ≠ None →
     nn_Namespace (splitNamespacedName s) +:+ "/" +:+
       nn_Name (splitNamespacedName s) = s ∧
     IndexRune (nn_Namespace (splitNamespacedName s)) Separator = None).
Proof.
  split; [apply splitNamespacedName_joined |]. split.
  - intros s Hs. unfold splitNamespacedName. by rewrite Hs.
  - intros s Hs. unfold splitNamespacedName.
    destruct (IndexRune s Separator) as [i |] eqn:Hi; [| done]. simpl.
    destruct (IndexRune_split s Separator i Hi) as [Heq Hnone].
    split; [| done]. symmetry. exact Heq.
Qed.

(** X23. [secretToExtensionConfig] asks for the configs indexed under the
    namespace and the name of the secret joined by a separator, the form
    that [splitNamespacedName] resolves back to the secret. It returns one
    request for each config listed, in the order of the list, with the name
    of the config and an empty namespace, and no request when the listing
    fails. *)
Theorem secretToExtensionConfig_requests
    (client_List : string → result ExtensionConfigList)
    (secret : PartialObjectMetadata) :
  secretToExtensionConfig client_List secret =
    match client_List (pom_Namespace secret +:+ "/" +:+ pom_Name secret) with
    | Err _ => []
    | Ok extensionConfigs =>
        (λ ext, {| req_NamespacedName :=
                     {| nn_Namespace := EmptyString; nn_Name := Name ext |} |})
        <$> Items extensionConfigs
    end ∧
  (IndexRune (pom_Namespace secret) Separator = None →
   splitNamespacedName (pom_Namespace secret +:+ "/" +:+ pom_Name secret) =
   {| nn_Namespace := pom_Namespace secret; nn_Name := pom_Name secret |}).
Proof.
  split; [| apply splitNamespacedName_joined].
  unfold secretToExtensionConfig.
  destruct (client_List _) as [l |]; [| done].
  assert (Hfold : ∀ (configs : list ExtensionConfig) (acc : list Request),
    foldl (λ result ext,
             result ++
             [{| req_NamespacedName :=
                   {| nn_Namespace := EmptyString; nn_Name := Name ext |} |}])
      acc configs =
    acc ++ ((λ ext, {| req_NamespacedName :=
                         {| nn_Namespace := EmptyString;
                            nn_Name := Name ext |} |}) <$> configs)).
  { induction configs as [| c configs IH]; intros acc; cbn [foldl].
    - by rewrite app_nil_r.
    - rewrite IH, fmap_cons. by rewrite <- app_assoc. }
  apply (Hfold (Items l) []).
Qed.
